(** * TinaCMS: build orchestration, cloud login and media list items

    A shallow embedding of three source files of the repository:

    - [packages/@tinacms/cli/src/buildTina/index.ts]: the setup commands
      ([buildSetupCmdBuild], [buildSetupCmdServerStart], [buildSetupCmdAudit]),
      the build commands ([buildCmdBuild], [auditCmdBuild]) and
      [ConfigBuilder] (module [BuildTina]);
    - [packages/tinacms/src/auth/authenticate.ts] (module [Auth]);
    - the media list item component [ListMediaItem] (module [MediaItem]).

    Asynchronous functions are embedded in a state-and-exception monad over
    an explicit [World]; a thrown exception (a rejected awaited promise)
    keeps the side effects performed before it.  The definitions come
    first; the facts about them follow in [BuildTinaFacts], [AuthFacts] and
    [MediaItemFacts]. *)

From stdpp Require Import base option list strings gmap.

Open Scope string_scope.
Open Scope list_scope.

(** ** Errors and results *)

Inductive Error : Type :=
| RootPathNotAttached            (* new Error('Root path has not been attached') *)
| SchemaInvalid
| WriteDenied
| NotFound
| IOError
| Thrown (msg : string).

Inductive Result (A : Type) : Type :=
| Ok (a : A)
| Err (e : Error).
Arguments Ok {A} a.
Arguments Err {A} e.

Definition is_ok {A} (r : Result A) : bool :=
  match r with Ok _ => true | Err _ => false end.

#[global] Instance Error_eq_dec : EqDecision Error.
Proof. solve_decision. Defined.

(** ** JavaScript truthiness of optional strings

    [undefined] and the empty string are falsy. *)

Definition truthy (s : option string) : option string :=
  match s with
  | Some "" => None
  | Some v => Some v
  | None => None
  end.

(** An optional boolean flag is truthy only when it is [true]. *)
Definition flag (b : option bool) : bool :=
  match b with Some true => true | _ => false end.

(** [path.join]: the segments joined by the separator, empty segments
    skipped.  Normalisation of [.] and [..] is not modelled: the
    development only needs that setup and build compute the same path from
    the same root. *)
Definition path_join (segments : list string) : string :=
  String.concat "/" (filter (λ s, s ≠ "") segments).
Arguments path_join : simpl never.

Definition tinaGeneratedPath (rootPath : string) : string :=
  path_join [rootPath; ".tina"; "__generated__"].

Module BuildTina.

(** ** Handles: bridges, stores, databases *)

Inductive BridgeKind : Type :=
| Direct            (* FilesystemBridge *)
| Audit             (* AuditFileSystemBridge *)
| VersionControl.   (* IsomorphicBridge *)

#[global] Instance BridgeKind_eq_dec : EqDecision BridgeKind.
Proof. solve_decision. Defined.

Definition IsomorphicOptions : Type := string.

Record Bridge : Type := {
  bridge_kind : BridgeKind;
  bridge_rootPath : string;
  bridge_options : option IsomorphicOptions;
}.

Definition FilesystemBridge (rootPath : string) : Bridge :=
  {| bridge_kind := Direct; bridge_rootPath := rootPath; bridge_options := None |}.

Definition AuditFileSystemBridge (rootPath : string) : Bridge :=
  {| bridge_kind := Audit; bridge_rootPath := rootPath; bridge_options := None |}.

Definition IsomorphicBridge (rootPath : string) (o : option IsomorphicOptions) : Bridge :=
  {| bridge_kind := VersionControl; bridge_rootPath := rootPath;
     bridge_options := o |}.

(** [new LevelStore(rootPath, useMemoryStore)] *)
Record LevelStore : Type := {
  store_rootPath : string;
  useMemoryStore : bool;
}.

Inductive StoreVariant : Type := InMemory | Persistent.

(** Modelled from the spec: the class [LevelStore] is not under src; the
    spec has two Store variants, "a persistent ordered-key store (durable
    across process restarts ...) and an in-memory store (ephemeral ...)";
    the second constructor argument selects between them. *)
Definition store_variant (s : LevelStore) : StoreVariant :=
  if useMemoryStore s then InMemory else Persistent.

Definition durable (v : StoreVariant) : bool :=
  match v with Persistent => true | InMemory => false end.

Record Database : Type := {
  bridge : Bridge;
  store : LevelStore;
}.

Record ConfigBuilder : Type := { database : Database }.

(** ** The world the build acts on *)

Inductive Call : Type :=
| CallIsProjectTs
| CallMakeIsomorphicOptions
| CallEnsureDir (p : string)
| CallCreateDatabase
| CallNext
| CallClearCache
| CallMkdirp (p : string)
| CallStoreClose
| CallResetGeneratedFolder (isBuild : bool)
| CallStoreOpen
| CallCompileSchema
| CallAddOutputPath (p : string)
| CallBuildSchema
| CallIndexContent
| CallGetASTSchema
| CallGenTypes
| CallGenClient
| CallViteBuild.

#[global] Instance Call_eq_dec : EqDecision Call.
Proof. solve_decision. Defined.

(** Operations a Database performs on its Bridge and its Store. *)
Inductive Op : Type :=
| BridgeGet (path : string)
| BridgePut (path content : string)
| BridgeDelete (path : string)
| BridgeList (sel : string → bool)
| StoreGet (path : string)
| StorePut (path record : string)
| StoreDelete (path : string).

Definition is_bridge_write (o : Op) : bool :=
  match o with
  | BridgePut _ _ | BridgeDelete _ => true
  | _ => false
  end.

(** The generated-artifacts directories: directory path to the files in it;
    a path that is not a key is a directory that does not exist.  They are
    kept apart from the source content, which is reached through the Bridge
    only. *)
Abbreviation Generated := (gmap string (gmap string string)).

Record World : Type := {
  source : gmap string string;        (* content entries of the source, by path *)
  generated : Generated;
  records : gmap string string;       (* Records held by the Store *)
  storeOpen : bool;
  cache : gmap string string;         (* CacheEntry state of the Database *)
  outputPath : option string;         (* set by bridge.addOutputPath *)
  lastIndexed : option (gmap string string);
                                      (* the source as of the last completed indexContent *)
  calls : list Call;                  (* calls made by the orchestration code, oldest first *)
  bridgeOps : list Op;                (* operations attempted on the Bridge and the Store *)
}.

Definition set_source (f : gmap string string → gmap string string) (w : World) : World :=
  {| source := f (source w); generated := generated w; records := records w;
     storeOpen := storeOpen w; cache := cache w; outputPath := outputPath w;
     lastIndexed := lastIndexed w; calls := calls w; bridgeOps := bridgeOps w |}.

Definition set_generated (g : Generated) (w : World) : World :=
  {| source := source w; generated := g; records := records w;
     storeOpen := storeOpen w; cache := cache w; outputPath := outputPath w;
     lastIndexed := lastIndexed w; calls := calls w; bridgeOps := bridgeOps w |}.

Definition set_records (f : gmap string string → gmap string string) (w : World) : World :=
  {| source := source w; generated := generated w; records := f (records w);
     storeOpen := storeOpen w; cache := cache w; outputPath := outputPath w;
     lastIndexed := lastIndexed w; calls := calls w; bridgeOps := bridgeOps w |}.

Definition set_storeOpen (b : bool) (w : World) : World :=
  {| source := source w; generated := generated w; records := records w;
     storeOpen := b; cache := cache w; outputPath := outputPath w;
     lastIndexed := lastIndexed w; calls := calls w; bridgeOps := bridgeOps w |}.

Definition set_cache (c : gmap string string) (w : World) : World :=
  {| source := source w; generated := generated w; records := records w;
     storeOpen := storeOpen w; cache := c; outputPath := outputPath w;
     lastIndexed := lastIndexed w; calls := calls w; bridgeOps := bridgeOps w |}.

Definition set_outputPath (p : option string) (w : World) : World :=
  {| source := source w; generated := generated w; records := records w;
     storeOpen := storeOpen w; cache := cache w; outputPath := p;
     lastIndexed := lastIndexed w; calls := calls w; bridgeOps := bridgeOps w |}.

Definition set_lastIndexed (s : option (gmap string string)) (w : World) : World :=
  {| source := source w; generated := generated w; records := records w;
     storeOpen := storeOpen w; cache := cache w; outputPath := outputPath w;
     lastIndexed := s; calls := calls w; bridgeOps := bridgeOps w |}.

Definition add_call (c : Call) (w : World) : World :=
  {| source := source w; generated := generated w; records := records w;
     storeOpen := storeOpen w; cache := cache w; outputPath := outputPath w;
     lastIndexed := lastIndexed w; calls := calls w ++ [c]; bridgeOps := bridgeOps w |}.

Definition add_op (o : Op) (w : World) : World :=
  {| source := source w; generated := generated w; records := records w;
     storeOpen := storeOpen w; cache := cache w; outputPath := outputPath w;
     lastIndexed := lastIndexed w; calls := calls w; bridgeOps := bridgeOps w ++ [o] |}.

(** ** The monad of asynchronous functions *)

Definition M (A : Type) : Type := World → Result A * World.

#[global] Instance M_ret : MRet M := λ A a w, (Ok a, w).

#[global] Instance M_bind : MBind M := λ A B f m w,
  match m w with
  | (Ok a, w') => f a w'
  | (Err e, w') => (Err e, w')
  end.

Definition throw {A} (e : Error) : M A := λ w, (Err e, w).

Definition log (c : Call) : M unit := λ w, (Ok (), add_call c w).

Definition modify (f : World → World) : M unit := λ w, (Ok (), f w).

(** A value that an external function returns or throws. *)
Definition lift {A} (r : Result A) : M A := λ w, (r, w).

(** An external function that reads and writes generated artifacts. *)
Definition on_generated {A} (f : Generated → Result A * Generated) : M A :=
  λ w, let '(r, g) := f (generated w) in (r, set_generated g w).

(** ** Programs over the Bridge and the Store

    [buildSchema], [indexContent] and [getASTSchema] live in the graphql
    package; they receive the Database and work through its Bridge and its
    Store.  They are taken as arbitrary programs over that interface. *)

Inductive Reply : Type :=
| Unit
| Content (c : string)
| Paths (l : list string)
| Failed (e : Error).

Inductive Script (A : Type) : Type :=
| Return (a : A)
| Throw (e : Error)
| Do (o : Op) (k : Reply → Script A).
Arguments Return {A} a.
Arguments Throw {A} e.
Arguments Do {A} o k.

(** Modelled from the spec: the Bridge and Store classes are not under src.
    §4.1: [get] fails with NotFound on an absent path; the Audit variant's
    [put] and [delete] "fail with WriteDenied unconditionally"; the Direct
    variant "reads/writes the source in place"; all variants give the same
    [get] and [list] results.  The version-control-aware variant's commit
    unit is not modelled: its writes reach the source like Direct ones.
    §4.2: [putRecord], [deleteRecord], [getRecord] on the Store. *)
Definition perform (b : Bridge) (o : Op) (w : World) : Reply * World :=
  match o with
  | BridgeGet p =>
      (match source w !! p with Some c => Content c | None => Failed NotFound end, w)
  | BridgePut p c =>
      match bridge_kind b with
      | Audit => (Failed WriteDenied, w)
      | _ => (Unit, set_source (insert p c) w)
      end
  | BridgeDelete p =>
      match bridge_kind b with
      | Audit => (Failed WriteDenied, w)
      | _ =>
          match source w !! p with
          | Some _ => (Unit, set_source (delete p) w)
          | None => (Failed NotFound, w)
          end
      end
  | BridgeList sel => (Paths (List.filter sel (map fst (map_to_list (source w)))), w)
  | StoreGet p =>
      (match records w !! p with Some r => Content r | None => Failed NotFound end, w)
  | StorePut p r => (Unit, set_records (insert p r) w)
  | StoreDelete p => (Unit, set_records (delete p) w)
  end.

(** Modelled from the spec: §7 makes WriteDenied "fatal to the audit run":
    it aborts the program; the other failures (NotFound, IOError) are
    per-path and handed back to the program. *)
Fixpoint run_script {A} (db : Database) (s : Script A) : M A :=
  match s with
  | Return a => mret a
  | Throw e => throw e
  | Do o k => λ w,
      match perform (bridge db) o (add_op o w) with
      | (Failed WriteDenied, w') => (Err WriteDenied, w')
      | (r, w') => run_script db (k r) w'
      end
  end.

(** ** Schemas and options *)

Record BuildConfig : Type := {
  outputFolder : option string;
  publicFolder : option string;
  host : option string;
}.

Record RemoteConfig : Type := { remote_rootPath : option string }.

Record Config : Type := {
  config_remote : option RemoteConfig;
  config_build : option BuildConfig;
}.

Record CompiledSchema : Type := {
  schema_config : option Config;
  schema_collections : string;
}.

(** [interface BuildSetupOptions] *)
Record BuildSetupOptions : Type := {
  isomorphicGitBridge : option bool;
  experimentalData : option bool;
}.

(** [interface BuildOptions] *)
Record BuildOptions : Type := {
  bo_local : bool;
  bo_dev : option bool;
  bo_verbose : option bool;
  bo_rootPath : option string;
}.

(** The options object of [buildCmdBuild] and [auditCmdBuild].  The object
    is spread after [rootPath: ctx.rootPath], so it matters whether it has
    a [rootPath] property at all: [None] is no such property, [Some v] a
    property of value [v] (where [v = None] is [undefined]). *)
Record CmdOptions : Type := {
  co_local : bool;
  co_dev : option bool;
  co_verbose : option bool;
  co_rootPath : option (option string);
  co_noSDK : option bool;
  co_port : option nat;
}.

Record ViteArgs : Type := {
  vite_local : bool;
  vite_rootPath : string;
  vite_outputFolder : option string;
  vite_publicFolder : option string;
  vite_apiUrl : string;
  vite_host : option string;       (* [None] is [false], from [host ?? false] *)
}.

Record BuildResult : Type := {
  schema : CompiledSchema;
  graphQLSchema : string;
  tinaSchema : string;
}.

(** The context object that the commands of one run share and mutate. *)
Record Ctx : Type := {
  ctx_rootPath : string;
  ctx_usingTs : bool;
  ctx_bridge : option Bridge;
  ctx_database : option Database;
  ctx_builder : option ConfigBuilder;
  ctx_schema : option CompiledSchema;
  ctx_apiUrl : option string;
}.

Definition attach (ctx : Ctx) (b : Bridge) (db : Database) : Ctx :=
  {| ctx_rootPath := ctx_rootPath ctx; ctx_usingTs := ctx_usingTs ctx;
     ctx_bridge := Some b; ctx_database := Some db;
     ctx_builder := Some {| database := db |};
     ctx_schema := ctx_schema ctx; ctx_apiUrl := ctx_apiUrl ctx |}.

Definition set_ctx_schema (s : CompiledSchema) (ctx : Ctx) : Ctx :=
  {| ctx_rootPath := ctx_rootPath ctx; ctx_usingTs := ctx_usingTs ctx;
     ctx_bridge := ctx_bridge ctx; ctx_database := ctx_database ctx;
     ctx_builder := ctx_builder ctx;
     ctx_schema := Some s; ctx_apiUrl := ctx_apiUrl ctx |}.

Definition set_ctx_apiUrl (u : string) (ctx : Ctx) : Ctx :=
  {| ctx_rootPath := ctx_rootPath ctx; ctx_usingTs := ctx_usingTs ctx;
     ctx_bridge := ctx_bridge ctx; ctx_database := ctx_database ctx;
     ctx_builder := ctx_builder ctx;
     ctx_schema := ctx_schema ctx; ctx_apiUrl := Some u |}.

(** ** Functions imported from outside the file

    The functions below are imported by [buildTina/index.ts] and are not
    under src; the embedding is parametric in them. *)
Record Collaborators : Type := {
  (* ./attachPath *)
  isProjectTs : option string → Result bool;
  (* ./git *)
  makeIsomorphicOptions : Bridge → Result IsomorphicOptions;
  (* whether the bridge object has the optional method addOutputPath *)
  hasAddOutputPath : Bridge → bool;
  (* ../cmds/compile: tinaGeneratedPath, usingTs, isBuild *)
  resetGeneratedFolder : string → bool → bool → Generated → Generated;
  (* ../cmds/compile: verbose, dev, rootPath *)
  compileSchema :
    option bool → option bool → string → Generated → Result CompiledSchema * Generated;
  (* @tinacms/graphql: rootPath, flags *)
  buildSchema : string → list string → Script (string * string);
  (* @tinacms/graphql: graphQLSchema, tinaSchema *)
  indexContent : string → string → Script unit;
  (* @tinacms/graphql *)
  getASTSchema : Script string;
  (* ../cmds/query-gen: schema, usingTs, rootPath, noSDK, verbose *)
  genTypes :
    string → bool → option string → option bool → option bool →
    Generated → Result unit * Generated;
  (* ../cmds/query-gen: tinaSchema, usingTs, rootPath, local, port *)
  genClient :
    CompiledSchema → bool → option string → option bool → option nat →
    Generated → Result string * Generated;
  (* @tinacms/app *)
  viteBuild : ViteArgs → Result unit;
}.

(** ** The source file [buildTina/index.ts] *)

Section Orchestration.

Context (ext : Collaborators).

(** [fs.ensureDirSync] and [fs.mkdirp] of fs-extra: the directory is
    created when it does not exist and left as it is otherwise. *)
Definition ensure_dir (p : string) (g : Generated) : Generated :=
  match g !! p with
  | Some _ => g
  | None => <[p := ∅]> g
  end.

Definition ensureDirSync (p : string) : M unit :=
  log (CallEnsureDir p);; modify (λ w, set_generated (ensure_dir p (generated w)) w).

Definition mkdirp (p : string) : M unit :=
  log (CallMkdirp p);; modify (λ w, set_generated (ensure_dir p (generated w)) w).

(** Modelled from the spec: the class [Database] is not under src.
    §4.3: [clearCache()] "drops all CacheEntry state; does not touch the
    Store". *)
Definition clearCache (db : Database) : M unit :=
  log CallClearCache;; modify (set_cache ∅).

(** Modelled from the spec: [LevelStore] is not under src.  §4.2 gives the
    Store an open/close lifecycle; the Records are kept across it. *)
Definition store_close (s : LevelStore) : M unit :=
  log CallStoreClose;; modify (set_storeOpen false).

Definition store_open (s : LevelStore) : M unit :=
  log CallStoreOpen;; modify (set_storeOpen true).

(** Modelled from the spec: §4.1, [addOutputPath(path)] redirects where
    generated artifacts are written "without affecting source-content
    paths". *)
Definition addOutputPath (b : Bridge) (p : string) : M unit :=
  log (CallAddOutputPath p);; modify (set_outputPath (Some p)).

(** [createDatabase({ store, bridge })] *)
Definition createDatabase (s : LevelStore) (b : Bridge) : M Database :=
  log CallCreateDatabase;; mret {| bridge := b; store := s |}.

(** Modelled from the spec: [Database.indexContent] is not under src.
    §4.3 makes it a full reindexing pass that reads through the Bridge and
    writes to the Store; it is taken as the program [indexContent ext], and
    a completed pass is remembered in [lastIndexed]. *)
Definition database_indexContent (db : Database) (gql tina : string) : M unit :=
  log CallIndexContent;;
  run_script db (indexContent ext gql tina);;
  modify (λ w, set_lastIndexed (Some (source w)) w).

(** [spin({ waitFor, text })] of ../utils/spinner awaits [waitFor]. *)
Definition spin {A} (text : string) (waitFor : M A) : M A := waitFor.

Definition buildSetup (isoGit : option bool) (rootPath : string) (useMem : bool)
  : M (Database * Bridge * LevelStore) :=
  let fsBridge := FilesystemBridge rootPath in
  isomorphicOptions ←
    (if flag isoGit
     then log CallMakeIsomorphicOptions;;
          o ← lift (makeIsomorphicOptions ext fsBridge); mret (Some o)
     else mret None);
  let bridge :=
    if flag isoGit then IsomorphicBridge rootPath isomorphicOptions else fsBridge in
  ensureDirSync (path_join [rootPath; ".tina"; "__generated__"]);;
  let store := {| store_rootPath := rootPath; useMemoryStore := useMem |} in
  database ← createDatabase store bridge;
  mret (database, bridge, store).

Definition buildSetupCmdBuild (ctx : Ctx) (next : Ctx → M unit) (opts : BuildSetupOptions)
  : M unit :=
  let rootPath := ctx_rootPath ctx in
  '(database, bridge, _) ← buildSetup (isomorphicGitBridge opts) rootPath true;
  let ctx := attach ctx bridge database in
  log CallNext;; next ctx.

Definition buildSetupCmdServerStart (ctx : Ctx) (next : Ctx → M unit)
  (opts : BuildSetupOptions) : M unit :=
  let rootPath := ctx_rootPath ctx in
  '(database, bridge, _) ← buildSetup (isomorphicGitBridge opts) rootPath false;
  let ctx := attach ctx bridge database in
  log CallNext;; next ctx.

Definition buildSetupCmdAudit (ctx : Ctx) (next : Ctx → M unit) (clean : bool) : M unit :=
  let rootPath := ctx_rootPath ctx in
  let bridge := if clean then FilesystemBridge rootPath else AuditFileSystemBridge rootPath in
  ensureDirSync (path_join [rootPath; ".tina"; "__generated__"]);;
  let store := {| store_rootPath := rootPath; useMemoryStore := false |} in
  database ← createDatabase store bridge;
  let ctx := attach ctx bridge database in
  log CallNext;; next ctx.

(** [compiledSchema.config?.remote?.rootPath] *)
Definition remoteRootPath (s : CompiledSchema) : option string :=
  cfg ← schema_config s; r ← config_remote cfg; remote_rootPath r.

(** [ConfigBuilder.build] *)
Definition build (this : ConfigBuilder) (o : BuildOptions) : M BuildResult :=
  usingTs ← (log CallIsProjectTs;; lift (isProjectTs ext (bo_rootPath o)));
  match truthy (bo_rootPath o) with
  | None => throw RootPathNotAttached
  | Some rootPath =>
      let generatedPath := path_join [rootPath; ".tina"; "__generated__"] in
      clearCache (database this);;
      mkdirp generatedPath;;
      store_close (store (database this));;
      (log (CallResetGeneratedFolder (negb (bo_local o)));;
       on_generated (λ g,
         (Ok (), resetGeneratedFolder ext generatedPath usingTs (negb (bo_local o)) g)));;
      store_open (store (database this));;
      compiledSchema ←
        (log CallCompileSchema;;
         on_generated (compileSchema ext (bo_verbose o) (bo_dev o) rootPath));
      (if hasAddOutputPath ext (bridge (database this))
       then match truthy (remoteRootPath compiledSchema) with
            | Some p => addOutputPath (bridge (database this)) p
            | None => mret ()
            end
       else mret ());;
      '(gql, tina) ←
        (log CallBuildSchema;;
         run_script (database this)
           (buildSchema ext rootPath ["experimentalData"; "isomorphicGitBridge"]));
      mret {| schema := compiledSchema; graphQLSchema := gql; tinaSchema := tina |}
  end.

(** The build sequence of [ConfigBuilder.build]: what the method does once
    the cache is cleared and the directory made, from [store.close()]
    on. *)
Definition build_sequence (this : ConfigBuilder) (o : BuildOptions)
  (rootPath : string) (usingTs : bool) : M BuildResult :=
  let generatedPath := path_join [rootPath; ".tina"; "__generated__"] in
  store_close (store (database this));;
  (log (CallResetGeneratedFolder (negb (bo_local o)));;
   on_generated (λ g,
     (Ok (), resetGeneratedFolder ext generatedPath usingTs (negb (bo_local o)) g)));;
  store_open (store (database this));;
  compiledSchema ←
    (log CallCompileSchema;;
     on_generated (compileSchema ext (bo_verbose o) (bo_dev o) rootPath));
  (if hasAddOutputPath ext (bridge (database this))
   then match truthy (remoteRootPath compiledSchema) with
        | Some p => addOutputPath (bridge (database this)) p
        | None => mret ()
        end
   else mret ());;
  '(gql, tina) ←
    (log CallBuildSchema;;
     run_script (database this)
       (buildSchema ext rootPath ["experimentalData"; "isomorphicGitBridge"]));
  mret {| schema := compiledSchema; graphQLSchema := gql; tinaSchema := tina |}.

(** [ConfigBuilder.genTypedClient] *)
Definition genTypedClient (this : ConfigBuilder) (usingTs : bool)
  (compiledSchema : CompiledSchema) (noSDK verbose local : option bool)
  (port : option nat) (rootPath : option string) : M string :=
  astSchema ← (log CallGetASTSchema;; run_script (database this) (getASTSchema ext));
  (log CallGenTypes;;
   on_generated (genTypes ext astSchema usingTs rootPath noSDK verbose));;
  log CallGenClient;;
  on_generated (genClient ext compiledSchema usingTs rootPath local port).

(** [buildAdmin] *)
Definition buildAdmin (schema : CompiledSchema) (local : bool) (rootPath apiUrl : string)
  : M unit :=
  match cfg ← schema_config schema; config_build cfg with
  | Some b =>
      let buildVite : M unit :=
        log CallViteBuild;;
        lift (viteBuild ext
                {| vite_local := local; vite_rootPath := rootPath;
                   vite_outputFolder := outputFolder b;
                   vite_publicFolder := publicFolder b;
                   vite_apiUrl := apiUrl; vite_host := host b |}) in
      if local then buildVite else spin "Building static site" buildVite
  | None => mret ()
  end.

(** [{ rootPath: ctx.rootPath, ...options }]: a [rootPath] property of the
    options object replaces the one of the context. *)
Definition spread_rootPath (ctx : Ctx) (options : CmdOptions) : option string :=
  match co_rootPath options with
  | Some v => v
  | None => Some (ctx_rootPath ctx)
  end.

(** A method call on a property of the context that was never attached
    throws a TypeError. *)
Definition attached {A} (o : option A) : M A :=
  match o with
  | Some a => mret a
  | None => throw (Thrown "TypeError")
  end.

Definition buildCmdBuild (ctx : Ctx) (next : Ctx → M unit) (options : CmdOptions) : M unit :=
  builder ← attached (ctx_builder ctx);
  r ← build builder
        {| bo_local := co_local options; bo_dev := co_dev options;
           bo_verbose := co_verbose options;
           bo_rootPath := spread_rootPath ctx options |};
  let ctx := set_ctx_schema (schema r) ctx in
  apiUrl ← genTypedClient builder (ctx_usingTs ctx) (schema r)
             (co_noSDK options) (co_verbose options) (Some (co_local options))
             (co_port options) None;
  let ctx := set_ctx_apiUrl apiUrl ctx in
  buildAdmin (schema r) (co_local options) (ctx_rootPath ctx) apiUrl;;
  log CallNext;; next ctx.

Definition auditCmdBuild (ctx : Ctx) (next : Ctx → M unit) (options : CmdOptions) : M unit :=
  builder ← attached (ctx_builder ctx);
  r ← build builder
        {| bo_local := co_local options; bo_dev := co_dev options;
           bo_verbose := Some true;
           bo_rootPath := spread_rootPath ctx options |};
  spin "Indexing local files"
    (db ← attached (ctx_database ctx);
     database_indexContent db (graphQLSchema r) (tinaSchema r));;
  log CallNext;; next ctx.

End Orchestration.

(** ** Whole runs

    Modelled from the spec: the command wiring is not under src.  §6 names
    the build modes [build] and [audit]; a run is the setup command
    followed by the build command of the mode, which is the last of the
    chain. *)

Definition finish : Ctx → M unit := λ _, mret ().

Definition build_command (ext : Collaborators) (ctx : Ctx) (opts : BuildSetupOptions)
  (options : CmdOptions) : M unit :=
  buildSetupCmdBuild ext ctx (λ ctx, buildCmdBuild ext ctx finish options) opts.

Definition audit_command (ext : Collaborators) (ctx : Ctx) (clean : bool)
  (options : CmdOptions) : M unit :=
  buildSetupCmdAudit ctx (λ ctx, auditCmdBuild ext ctx finish options) clean.

(** ** Observations on a run *)

(** The calls and the Bridge/Store operations that a run from [w] to [w']
    added. *)
Definition new_calls (w w' : World) : list Call :=
  drop (length (calls w)) (calls w').

(** The run from [w] to [w'] added the calls [l]. *)
Definition extends (w w' : World) (l : list Call) : Prop := calls w' = calls w ++ l.

(** What a program over the Bridge and the Store cannot touch: everything
    but the source, the Records and the log of operations. *)
Record frame (w w' : World) : Prop := {
  frame_calls : calls w' = calls w;
  frame_generated : generated w' = generated w;
  frame_cache : cache w' = cache w;
  frame_storeOpen : storeOpen w' = storeOpen w;
  frame_outputPath : outputPath w' = outputPath w;
  frame_lastIndexed : lastIndexed w' = lastIndexed w;
}.

Definition new_ops (w w' : World) : list Op :=
  drop (length (bridgeOps w)) (bridgeOps w').

Definition attempts_write (l : list Op) : bool := existsb is_bridge_write l.

(** Every occurrence of [b] in [l] comes after an occurrence of [a]. *)
Definition called_before (a b : Call) (l : list Call) : Prop :=
  ∀ l1 l2, l = l1 ++ b :: l2 → a ∈ l1.

Fixpoint called_before_from (seen : bool) (a b : Call) (l : list Call) : bool :=
  match l with
  | [] => true
  | x :: l' =>
      (if bool_decide (x = b) then seen else true)
      && called_before_from (seen || bool_decide (x = a)) a b l'
  end.

(** The calls of [chain] occur in [l] in the order of the chain: each is
    called only after its predecessor. *)
Fixpoint in_order (chain : list Call) (l : list Call) : Prop :=
  match chain with
  | x :: (y :: _) as rest => called_before x y l ∧ in_order rest l
  | _ => True
  end.

(** Whether the Store is closed once the calls [l] of a run are made: the
    run has called [store.close()], and [store.open()] not since. *)
Definition store_closed_after (l : list Call) : bool :=
  foldl (λ closed c,
           match c with
           | CallStoreClose => true
           | CallStoreOpen => false
           | _ => closed
           end) false l.

(** Every occurrence of [c] in [l] comes while the Store is closed. *)
Definition called_while_closed (c : Call) (l : list Call) : Prop :=
  ∀ l1 l2, l = l1 ++ c :: l2 → store_closed_after l1 = true.

Fixpoint called_while_closed_from (closed : bool) (c : Call) (l : list Call) : bool :=
  match l with
  | [] => true
  | x :: l' =>
      (if bool_decide (x = c) then closed else true)
      && called_while_closed_from
           (match x with
            | CallStoreClose => true
            | CallStoreOpen => false
            | _ => closed
            end) c l'
  end.

Definition dir_exists (p : string) (w : World) : Prop := is_Some (generated w !! p).

(** The source content differs from what the last completed indexing pass
    saw. *)
Definition content_changed (w : World) : Prop := lastIndexed w ≠ Some (source w).

(** ** The exits of [ConfigBuilder.build] *)

Section BuildExits.

Context (ext : Collaborators) (this : ConfigBuilder) (o : BuildOptions).

(** The world once the cache is cleared, the generated folder reset and
    the Store reopened. *)
Definition prepared (rootPath : string) (usingTs : bool) (w : World) : World :=
  let p := path_join [rootPath; ".tina"; "__generated__"] in
  let isBuild := negb (bo_local o) in
  {| source := source w;
     generated := resetGeneratedFolder ext p usingTs isBuild (ensure_dir p (generated w));
     records := records w; storeOpen := true; cache := ∅;
     outputPath := outputPath w; lastIndexed := lastIndexed w;
     calls := calls w ++ [CallIsProjectTs; CallClearCache; CallMkdirp p; CallStoreClose;
                          CallResetGeneratedFolder isBuild; CallStoreOpen];
     bridgeOps := bridgeOps w |}.

(** The world once the schema is compiled, with [g] the generated
    artifacts the compiler left. *)
Definition compiled (g : Generated) (w : World) : World :=
  set_generated g (add_call CallCompileSchema w).

(** The output path of a compiled schema reaches the bridge when the
    bridge can take one. *)
Definition redirected (cs : CompiledSchema) (w : World) : World :=
  if hasAddOutputPath ext (bridge (database this))
  then match truthy (remoteRootPath cs) with
       | Some p => set_outputPath (Some p) (add_call (CallAddOutputPath p) w)
       | None => w
       end
  else w.

Inductive build_exit (w : World) : Result BuildResult → World → Prop :=
| exit_probe_threw e :
    isProjectTs ext (bo_rootPath o) = Err e →
    build_exit w (Err e) (add_call CallIsProjectTs w)
| exit_no_root_path usingTs :
    isProjectTs ext (bo_rootPath o) = Ok usingTs →
    truthy (bo_rootPath o) = None →
    build_exit w (Err RootPathNotAttached) (add_call CallIsProjectTs w)
| exit_schema_invalid usingTs rootPath e g :
    isProjectTs ext (bo_rootPath o) = Ok usingTs →
    truthy (bo_rootPath o) = Some rootPath →
    compileSchema ext (bo_verbose o) (bo_dev o) rootPath
      (generated (prepared rootPath usingTs w)) = (Err e, g) →
    build_exit w (Err e) (compiled g (prepared rootPath usingTs w))
| exit_build_schema_threw usingTs rootPath cs g e w' :
    isProjectTs ext (bo_rootPath o) = Ok usingTs →
    truthy (bo_rootPath o) = Some rootPath →
    compileSchema ext (bo_verbose o) (bo_dev o) rootPath
      (generated (prepared rootPath usingTs w)) = (Ok cs, g) →
    run_script (database this)
      (buildSchema ext rootPath ["experimentalData"; "isomorphicGitBridge"])
      (add_call CallBuildSchema (redirected cs (compiled g (prepared rootPath usingTs w))))
      = (Err e, w') →
    build_exit w (Err e) w'
| exit_built usingTs rootPath cs g gql tina w' :
    isProjectTs ext (bo_rootPath o) = Ok usingTs →
    truthy (bo_rootPath o) = Some rootPath →
    compileSchema ext (bo_verbose o) (bo_dev o) rootPath
      (generated (prepared rootPath usingTs w)) = (Ok cs, g) →
    run_script (database this)
      (buildSchema ext rootPath ["experimentalData"; "isomorphicGitBridge"])
      (add_call CallBuildSchema (redirected cs (compiled g (prepared rootPath usingTs w))))
      = (Ok (gql, tina), w') →
    build_exit w (Ok {| schema := cs; graphQLSchema := gql; tinaSchema := tina |}) w'.

End BuildExits.

(** The calls of a complete [build], in order; [out] is the optional call
    of [addOutputPath]. *)
Definition build_plan (p : string) (isBuild : bool) (out : list Call) : list Call :=
  [CallIsProjectTs; CallClearCache; CallMkdirp p; CallStoreClose;
   CallResetGeneratedFolder isBuild; CallStoreOpen; CallCompileSchema]
  ++ out ++ [CallBuildSchema].

(** The calls of a complete [buildCmdBuild]; [vite] is the optional call of
    [viteBuild]. *)
Definition build_command_plan (p : string) (isBuild : bool) (out vite : list Call)
  : list Call :=
  build_plan p isBuild out
  ++ [CallGetASTSchema; CallGenTypes; CallGenClient] ++ vite ++ [CallNext].

(** The calls of a complete [auditCmdBuild]. *)
Definition audit_command_plan (p : string) (isBuild : bool) (out : list Call)
  : list Call :=
  build_plan p isBuild out ++ [CallIndexContent; CallNext].

Arguments build_plan : simpl never.
Arguments build_command_plan : simpl never.
Arguments audit_command_plan : simpl never.

Definition optional_call (l : list Call) (c : Call) : Prop := l = [] ∨ l = [c].

(** The world in which a setup command calls [next]; [pre] is the optional
    call of [makeIsomorphicOptions]. *)
Definition set_up (pre : list Call) (rootPath : string) (w : World) : World :=
  let p := path_join [rootPath; ".tina"; "__generated__"] in
  {| source := source w; generated := ensure_dir p (generated w);
     records := records w; storeOpen := storeOpen w; cache := cache w;
     outputPath := outputPath w; lastIndexed := lastIndexed w;
     calls := calls w ++ pre ++ [CallEnsureDir p; CallCreateDatabase; CallNext];
     bridgeOps := bridgeOps w |}.

(** The options object that [buildCmdBuild] hands to [build]. *)
Definition build_options (ctx : Ctx) (options : CmdOptions) : BuildOptions :=
  {| bo_local := co_local options; bo_dev := co_dev options;
     bo_verbose := co_verbose options;
     bo_rootPath := spread_rootPath ctx options |}.

(** The options object that [auditCmdBuild] hands to [build]. *)
Definition audit_options (ctx : Ctx) (options : CmdOptions) : BuildOptions :=
  {| bo_local := co_local options; bo_dev := co_dev options;
     bo_verbose := Some true;
     bo_rootPath := spread_rootPath ctx options |}.

(** ** Sample collaborators and inputs *)

Definition sample_schema : CompiledSchema :=
  {| schema_config := Some {| config_remote := None; config_build := None |};
     schema_collections := "posts" |}.

(** Collaborators of a project whose schema compiles and whose indexing
    pass reads every entry of the source. *)
Definition sample_ext : Collaborators :=
  {| isProjectTs := λ _, Ok true;
     makeIsomorphicOptions := λ _, Ok "main";
     hasAddOutputPath := λ b, bool_decide (bridge_kind b ≠ VersionControl);
     resetGeneratedFolder := λ p _ _ g, <[p := ∅]> g;
     compileSchema := λ _ _ _ g, (Ok sample_schema, g);
     buildSchema := λ _ _, Return ("graphql", "tina");
     indexContent := λ _ _,
       Do (BridgeList (λ _, true)) (λ _,
       Do (BridgeGet "posts/a.md") (λ _, Return ()));
     getASTSchema := Return "ast";
     genTypes := λ _ _ _ _ _ g, (Ok (), g);
     genClient := λ _ _ _ _ _ g, (Ok "http://localhost:4001/graphql", g);
     viteBuild := λ _, Ok () |}.

(** The same project with a schema that the compiler rejects. *)
Definition invalid_schema_ext : Collaborators :=
  {| isProjectTs := isProjectTs sample_ext;
     makeIsomorphicOptions := makeIsomorphicOptions sample_ext;
     hasAddOutputPath := hasAddOutputPath sample_ext;
     resetGeneratedFolder := resetGeneratedFolder sample_ext;
     compileSchema := λ _ _ _ g, (Err SchemaInvalid, g);
     buildSchema := buildSchema sample_ext;
     indexContent := indexContent sample_ext;
     getASTSchema := getASTSchema sample_ext;
     genTypes := genTypes sample_ext;
     genClient := genClient sample_ext;
     viteBuild := viteBuild sample_ext |}.

(** The same project with an indexing pass that rewrites an entry. *)
Definition rewriting_ext : Collaborators :=
  {| isProjectTs := isProjectTs sample_ext;
     makeIsomorphicOptions := makeIsomorphicOptions sample_ext;
     hasAddOutputPath := hasAddOutputPath sample_ext;
     resetGeneratedFolder := resetGeneratedFolder sample_ext;
     compileSchema := compileSchema sample_ext;
     buildSchema := buildSchema sample_ext;
     indexContent := λ _ _,
       Do (BridgeGet "posts/a.md") (λ _,
       Do (BridgePut "posts/a.md" "title: A (cleaned)") (λ _, Return ()));
     getASTSchema := getASTSchema sample_ext;
     genTypes := genTypes sample_ext;
     genClient := genClient sample_ext;
     viteBuild := viteBuild sample_ext |}.

(** A project with one entry, edited since it was last indexed, and no
    generated folder yet. *)
Definition sample_world : World :=
  {| source := {["posts/a.md" := "title: A"]};
     generated := ∅;
     records := {["posts/a.md" := "A"]};
     storeOpen := true;
     cache := {["posts/a.md" := "A"]};
     outputPath := None;
     lastIndexed := Some {["posts/a.md" := "title: a"]};
     calls := [];
     bridgeOps := [] |}.

Definition sample_ctx : Ctx :=
  {| ctx_rootPath := "/site"; ctx_usingTs := true; ctx_bridge := None;
     ctx_database := None; ctx_builder := None; ctx_schema := None;
     ctx_apiUrl := None |}.

Definition sample_database : Database :=
  {| bridge := FilesystemBridge "/site";
     store := {| store_rootPath := "/site"; useMemoryStore := true |} |}.

(** The context once a setup command has attached the sample database. *)
Definition sample_attached_ctx : Ctx :=
  attach sample_ctx (bridge sample_database) sample_database.

Definition sample_build_options : BuildOptions :=
  {| bo_local := false; bo_dev := None; bo_verbose := None; bo_rootPath := Some "/site" |}.

(** Build options without a root path. *)
Definition rootless_build_options : BuildOptions :=
  {| bo_local := false; bo_dev := None; bo_verbose := None; bo_rootPath := None |}.

Definition sample_options : CmdOptions :=
  {| co_local := false; co_dev := None; co_verbose := None; co_rootPath := None;
     co_noSDK := None; co_port := None |}.

Definition sample_setup_options : BuildSetupOptions :=
  {| isomorphicGitBridge := None; experimentalData := None |}.

(** A schema whose configuration has a remote root path and a build
    section. *)
Definition remote_schema : CompiledSchema :=
  {| schema_config :=
       Some {| config_remote := Some {| remote_rootPath := Some "content" |};
               config_build := Some {| outputFolder := Some "admin";
                                       publicFolder := Some "public";
                                       host := None |} |};
     schema_collections := "posts" |}.

(** The sample project with that schema. *)
Definition remote_ext : Collaborators :=
  {| isProjectTs := isProjectTs sample_ext;
     makeIsomorphicOptions := makeIsomorphicOptions sample_ext;
     hasAddOutputPath := hasAddOutputPath sample_ext;
     resetGeneratedFolder := resetGeneratedFolder sample_ext;
     compileSchema := λ _ _ _ g, (Ok remote_schema, g);
     buildSchema := buildSchema sample_ext;
     indexContent := indexContent sample_ext;
     getASTSchema := getASTSchema sample_ext;
     genTypes := genTypes sample_ext;
     genClient := genClient sample_ext;
     viteBuild := viteBuild sample_ext |}.

(** Command options with a [rootPath] property that is [undefined]. *)
Definition undefined_root_options : CmdOptions :=
  {| co_local := false; co_dev := None; co_verbose := None; co_rootPath := Some None;
     co_noSDK := None; co_port := None |}.

End BuildTina.

(** * Cloud login: [auth/authenticate.ts] *)

Module Auth.

(** Values that a message posted to the window can carry. *)
Inductive JsValue : Type :=
| JsUndefined
| JsNull
| JsBool (b : bool)
| JsNumber (n : Z)
| JsString (s : string).

#[global] Instance JsValue_eq_dec : EqDecision JsValue.
Proof. solve_decision. Defined.

(** [e.data]: reading a property of [null] or [undefined] throws a
    TypeError; any other value is read as an object, a property it does not
    have being [undefined]. *)
Inductive MessageData : Type :=
| DataNullish
| DataObject (props : gmap string JsValue).

Record MessageEvent : Type := { data : MessageData }.

Definition TINA_LOGIN_EVENT : string := "tinaCloudLogin".
Definition AUTH_TOKEN_KEY : string := "tinacms-auth".

Record TokenObject : Type := {
  id_token : JsValue;
  access_token : JsValue;
  refresh_token : JsValue;
}.

Definition prop (props : gmap string JsValue) (name : string) : JsValue :=
  default JsUndefined (props !! name).

(** [v === s] for a string constant [s] *)
Definition strict_eq_string (v : JsValue) (s : string) : bool :=
  match v with
  | JsString s' => bool_decide (s' = s)
  | _ => false
  end.

Inductive Promise (A : Type) : Type :=
| Pending
| Fulfilled (v : A)
| Rejected (reason : string).
Arguments Pending {A}.
Arguments Fulfilled {A} v.
Arguments Rejected {A} reason.

(** The [resolve] function of a promise settles it once. *)
Definition resolve {A} (v : A) (p : Promise A) : Promise A :=
  match p with
  | Pending => Fulfilled v
  | _ => p
  end.

(** How a call of [popupWindow] of ./popupWindow, which is not under src,
    can end: it returns the window it opened, it returns [null] (a blocked
    popup), or it throws. *)
Inductive PopupResult : Type :=
| PopupOpened
| PopupNull
| PopupThrew (reason : string).

(** What the page needs from the browser. *)
Record Browser : Type := {
  location_protocol : string;
  location_host : string;
  popupWindow : string → string → nat → nat → PopupResult;
}.

Record Page : Type := {
  promise : Promise TokenObject;   (* the promise that [authenticate] returned *)
  authTab : option string;         (* the popup, by its URL; [None] is [null] *)
  closeCalls : nat;                (* calls of [authTab.close()] *)
  uncaught : nat;                  (* exceptions that left the listener *)
}.

Definition signin_url (b : Browser) (clientId frontendUrl : string) : string :=
  let origin := location_protocol b +:+ "//" +:+ location_host b in
  frontendUrl +:+ "/signin?clientId=" +:+ clientId +:+ "&origin=" +:+ origin.

(** The tab in which [authenticate] was called: the page, and whether the
    listener for ['message'] events was registered. *)
Record Tab : Type := {
  page : Page;
  listening : bool;
}.

(** The executor of the promise: the popup is opened, then the listener
    registered, and the promise is pending.  An exception that
    [popupWindow] throws leaves the executor: the promise is rejected with
    it and the listener is not registered. *)
Definition authenticate (b : Browser) (clientId frontendUrl : string) : Tab :=
  let url := signin_url b clientId frontendUrl in
  match popupWindow b url "_blank" 1000 700 with
  | PopupThrew reason =>
      {| page := {| promise := Rejected reason; authTab := None;
                    closeCalls := 0; uncaught := 0 |};
         listening := false |}
  | PopupOpened =>
      {| page := {| promise := Pending; authTab := Some url;
                    closeCalls := 0; uncaught := 0 |};
         listening := true |}
  | PopupNull =>
      {| page := {| promise := Pending; authTab := None;
                    closeCalls := 0; uncaught := 0 |};
         listening := true |}
  end.

Definition token_of (props : gmap string JsValue) : TokenObject :=
  {| id_token := prop props "id_token";
     access_token := prop props "access_token";
     refresh_token := prop props "refresh_token" |}.

(** The listener registered for ['message'] events. *)
Definition on_message (e : MessageEvent) (pg : Page) : Page :=
  match data e with
  | DataNullish =>
      {| promise := promise pg; authTab := authTab pg;
         closeCalls := closeCalls pg; uncaught := S (uncaught pg) |}
  | DataObject props =>
      if strict_eq_string (prop props "source") TINA_LOGIN_EVENT
      then {| promise := resolve (token_of props) (promise pg);
              authTab := authTab pg;
              closeCalls := match authTab pg with
                            | Some _ => S (closeCalls pg)
                            | None => closeCalls pg
                            end;
              uncaught := uncaught pg |}
      else pg
  end.

(** The window receives the events in order; the listener is never
    removed. *)
Definition receive (events : list MessageEvent) (pg : Page) : Page :=
  foldl (λ pg e, on_message e pg) pg events.

(** Messages posted to the tab reach the listener when it is registered. *)
Definition dispatch (events : list MessageEvent) (t : Tab) : Tab :=
  if listening t
  then {| page := receive events (page t); listening := true |}
  else t.

(** The data of a login message, if the event is one. *)
Definition login_data (e : MessageEvent) : option (gmap string JsValue) :=
  match data e with
  | DataObject props =>
      if strict_eq_string (prop props "source") TINA_LOGIN_EVENT then Some props else None
  | DataNullish => None
  end.

Definition first_login (events : list MessageEvent) : option (gmap string JsValue) :=
  head (omap login_data events).

(** Whether reading [e.data.source] throws. *)
Definition nullish (e : MessageEvent) : bool :=
  match data e with
  | DataNullish => true
  | DataObject _ => false
  end.

Definition is_login (e : MessageEvent) : bool :=
  match login_data e with
  | Some _ => true
  | None => false
  end.

(** A browser in which [popupWindow] throws, and a login message. *)
Definition throwing_browser : Browser :=
  {| location_protocol := "https:"; location_host := "example.com";
     popupWindow := λ _ _ _ _, PopupThrew "SecurityError" |}.

Definition login_event : MessageEvent :=
  {| data := DataObject {[ "source" := JsString "tinaCloudLogin";
                           "id_token" := JsString "abc" ]} |}.

End Auth.

(** * Media list items: [ListMediaItem] *)

Module MediaItem.

(** [Media['type']] is ['file' | 'dir']. *)
Inductive MediaType : Type := file | dir.

#[global] Instance MediaType_eq_dec : EqDecision MediaType.
Proof. solve_decision. Defined.

Record Media : Type := {
  media_type : MediaType;
  id : string;
  filename : string;
  directory : string;
  thumbnail : option string;
}.

Section Components.

(** Callbacks passed as props. *)
Context {Handler : Type}.

(** Rendered elements: tag or component name, class, attributes, the
    handler and argument of a click, children. *)
#[warnings="-register-all"]
Inductive Element : Type :=
| Tag (name className : string) (attrs : list (string * string))
      (onClick : option (Handler * Media)) (children : list Element)
| Text (s : string)
| Nothing.                        (* [false] and [undefined] render nothing *)

Record MediaItemProps : Type := {
  item : Media;
  onClick : Handler;
  onSelect : option Handler;
  onDelete : option Handler;
}.

Definition Filename (className : string) (children : list Element) : Element :=
  Tag "span" ("text-base flex-grow w-full break-words truncate " +:+ className)
    [] None children.

Definition ListMediaItem (props : MediaItemProps) : Element :=
  let item := item props in
  let FileIcon := if decide (media_type item = dir) then "Folder" else "File" in
  Tag "li"
    ("flex gap-3 items-center py-2 pl-2 pr-3 bg-white transition duration-150 ease-out hover:bg-white/50 "
     +:+ (if decide (media_type item = dir) then "cursor-pointer" else ""))
    [] (Some (onClick props, item))
    [ Tag "div"
        "w-20 h-20 border border-gray-100 rounded overflow-hidden flex justify-center flex-shrink-0"
        [] None
        [ match truthy (thumbnail item) with
          | Some src =>
              Tag "img" "object-cover w-full h-full object-center"
                [("src", src); ("alt", filename item)] None []
          | None => Tag FileIcon "w-[47%] h-full fill-gray-300" [] None []
          end ];
      Filename "" [Text (filename item)];
      Tag "div"
        "flex justify-end gap-3 items-center group transition duration-150 ease-out opacity-70 hover:opacity-100"
        [] None
        [ match onSelect props with
          | Some h =>
              if decide (media_type item = file)
              then Tag "Button" "" [("size", "medium"); ("variant", "white")]
                     (Some (h, item))
                     [ Text "Insert"; Text " ";
                       Tag "BiArrowToBottom"
                         "ml-1 -mr-0.5 w-6 h-auto text-blue-500 opacity-70" [] None [] ]
              else Nothing
          | None => Nothing
          end;
          match onDelete props with
          | Some h =>
              if decide (media_type item = file)
              then Tag "IconButton" "" [("variant", "ghost"); ("size", "medium")]
                     (Some (h, item))
                     [ Tag "TrashIcon" "w-6 h-auto" [] None [] ]
              else Nothing
          | None => Nothing
          end ] ].

(** The elements of the given name anywhere in a rendered tree. *)
Fixpoint find_all (name : string) (e : Element) : list Element :=
  match e with
  | Tag n _ _ _ children =>
      (if bool_decide (n = name) then [e] else [])
      ++ flat_map (find_all name) children
  | Text _ | Nothing => []
  end.

Definition renders (name : string) (e : Element) : bool :=
  match find_all name e with
  | [] => false
  | _ :: _ => true
  end.

Definition click_of (e : Element) : option (Handler * Media) :=
  match e with
  | Tag _ _ _ c _ => c
  | _ => None
  end.

End Components.

Arguments Element : clear implicits.
Arguments MediaItemProps : clear implicits.

Section Inspection.

Context {Handler : Type}.


(** Every click handler of a rendered tree, with its argument, in document
    order. *)
Fixpoint clicks (e : Element Handler) : list (Handler * Media) :=
  match e with
  | Tag _ _ _ c children =>
      match c with Some x => [x] | None => [] end ++ flat_map clicks children
  | Text _ | Nothing => []
  end.

(** The texts of a rendered tree, in document order. *)
Fixpoint texts (e : Element Handler) : list string :=
  match e with
  | Tag _ _ _ _ children => flat_map texts children
  | Text s => [s]
  | Nothing => []
  end.

End Inspection.

Section Grid.

Context {Handler : Type}.

(** Elements of the grid item: the click of its button calls the handler
    on the item or on [false] ([None]). *)
#[warnings="-register-all"]
Inductive GridElement : Type :=
| GTag (name className : string) (attrs : list (string * string))
       (onClick : option (Handler * option Media)) (children : list GridElement).

Record GridItemProps : Type := {
  grid_item : Media;
  grid_active : bool;
  grid_onClick : Handler;
}.

Definition GridMediaItem (props : GridItemProps) : GridElement :=
  let item := grid_item props in
  let active := grid_active props in
  let FileIcon := if decide (media_type item = dir) then "Folder" else "File" in
  GTag "li"
    ("relative aspect-w-1 aspect-h-1 border border-gray-100 rounded-md overflow-hidden flex justify-center flex-shrink-0 transition duration-150 ease-out "
     +:+ (if active then "shadow-outline"
          else "shadow hover:shadow-md hover:scale-103 hover:border-gray-150")
     +:+ " " +:+ (if decide (media_type item = dir) then "cursor-pointer" else ""))
    [] None
    [ GTag "button" "absolute w-full h-full" []
        (Some (grid_onClick props, if negb active then Some item else None))
        [ match truthy (thumbnail item) with
          | Some src =>
              GTag "img" "object-cover w-full h-full object-center"
                [("src", src); ("alt", filename item)] None []
          | None => GTag FileIcon "w-[47%] h-full fill-gray-300" [] None []
          end ] ].


Fixpoint grid_clicks (e : GridElement) : list (string * (Handler * option Media)) :=
  match e with
  | GTag n _ _ c children =>
      match c with Some x => [(n, x)] | None => [] end ++ flat_map grid_clicks children
  end.


Definition grid_class_of (e : GridElement) : string :=
  match e with GTag _ className _ _ _ => className end.

End Grid.

Arguments GridElement : clear implicits.
Arguments GridItemProps : clear implicits.

End MediaItem.

(** * The rich-text field: [MdxFieldPlugin] *)

Module MdxField.

(** The state that the hooks of one mounted field component hold:
    [React.useState(false)] and [React.useState(0)]. *)
Record Hooks : Type := {
  rawMode : bool;
  key : nat;
}.

Definition mounted : Hooks := {| rawMode := false; key := 0 |}.

(** The state of a field whose key was bumped [n] times. *)
Definition bumped (n : nat) (h : Hooks) : Hooks :=
  {| rawMode := rawMode h; key := key h + n |}.

Definition name : string := "rich-text".

Section Plugin.

(** The initial values handed to [form.reset], what it returns, the state
    of the form, and the templates and props of the field. *)
Context {Values Outcome FormState Templates Props : Type}.

(** A page: the hooks of the mounted rich-text field components, by field
    name, and the form they belong to. *)
Record Page : Type := {
  fields : gmap string Hooks;
  formState : FormState;
}.

(** [form.reset] *)
Definition FormReset : Type := Values → Page → Outcome * Page.

(** The setters of the hooks of a field; the setter of a field that is not
    mounted does nothing. *)
Definition setKey (field : string) (f : nat → nat) (pg : Page) : Page :=
  {| fields := alter (λ h, {| rawMode := rawMode h; key := f (key h) |}) field (fields pg);
     formState := formState pg |}.

Definition setRawMode (field : string) (b : bool) (pg : Page) : Page :=
  {| fields := alter (λ h, {| rawMode := b; key := key h |}) field (fields pg);
     formState := formState pg |}.

(** The callback of [React.useMemo], run once when the field mounts:
    [props.form.reset] is replaced by a function that bumps the key and
    calls the reset it replaces. *)
Definition wrap_reset (field : string) (reset : FormReset) : FormReset :=
  λ initialValues pg, reset initialValues (setKey field (λ key, key + 1) pg).

(** The reset of a form that knows nothing of the fields. *)
Definition form_reset (base : Values → FormState → Outcome * FormState) : FormReset :=
  λ initialValues pg,
    let '(o, f) := base initialValues (formState pg) in
    (o, {| fields := fields pg; formState := f |}).

Inductive View : Type :=
| Provider (key : nat) (templates : Templates) (rawMode : bool) (child : View)
| Div (className : string) (child : View)
| RawEditor (props : Props)
| RichEditor (props : Props).

(** What the component renders from the state of its hooks. *)
Definition Component (templates : Templates) (props : Props) (h : Hooks) : View :=
  Provider (key h) templates (rawMode h)
    (Div
       "min-h-[100px] max-w-full tina-prose relative shadow-inner focus-within:shadow-outline focus-within:border-blue-500 block w-full bg-white border border-gray-200 text-gray-600 focus-within:text-gray-900 rounded-md px-3 py-2 mb-5"
       (if rawMode h then RawEditor props else RichEditor props)).

(** What happens on the page: the editor context switches the mode of a
    field, or the form is reset. *)
Inductive Action : Type :=
| SwitchMode (field : string) (raw : bool)
| ResetForm (initialValues : Values).

Definition act (reset : FormReset) (a : Action) (pg : Page) : Page :=
  match a with
  | SwitchMode field raw => setRawMode field raw pg
  | ResetForm initialValues => (reset initialValues pg).2
  end.

Definition run (reset : FormReset) (actions : list Action) (pg : Page) : Page :=
  foldl (λ pg a, act reset a pg) pg actions.

(** The outcomes of the resets among the actions, in order. *)
Fixpoint outcomes (reset : FormReset) (actions : list Action) (pg : Page) : list Outcome :=
  match actions with
  | [] => []
  | a :: rest =>
      match a with
      | ResetForm initialValues => [(reset initialValues pg).1]
      | SwitchMode _ _ => []
      end ++ outcomes reset rest (act reset a pg)
  end.

(** The form mounted with the given fields, the last one mounted last. *)
Definition mount_all (mountedFields : list string) (reset : FormReset) : FormReset :=
  foldl (λ reset field, wrap_reset field reset) reset mountedFields.

Definition resets (actions : list Action) : list Values :=
  omap (λ a, match a with ResetForm v => Some v | SwitchMode _ _ => None end) actions.

(** The mode that the actions leave a field in. *)
Definition mode_after (field : string) (actions : list Action) (raw : bool) : bool :=
  foldl (λ raw a, match a with
                  | SwitchMode f b => if decide (f = field) then b else raw
                  | ResetForm _ => raw
                  end) raw actions.

Definition shows_raw (v : View) : bool :=
  match v with
  | Provider _ _ _ (Div _ (RawEditor _)) => true
  | _ => false
  end.

Definition provider_key (v : View) : option nat :=
  match v with
  | Provider k _ _ _ => Some k
  | _ => None
  end.

End Plugin.

Arguments Page : clear implicits.
Arguments View : clear implicits.
Arguments Action : clear implicits.

End MdxField.
(** * Proof steps *)

(** Split a conjunction into its conjuncts. *)
Ltac splits := repeat match goal with |- _ ∧ _ => split end.

(** Normalise nested appends. *)
Ltac assoc := repeat (rewrite <- !app_assoc; simpl).

(** * Facts about the build orchestration *)

Module BuildTinaFacts.

Import BuildTina.

(** ** Call logs *)

Lemma new_calls_app w w' l : calls w' = calls w ++ l → new_calls w w' = l.
Proof. intros E. unfold new_calls. rewrite E. apply drop_app_length. Qed.

Lemma extends_refl w : extends w w [].
Proof. unfold extends. by rewrite app_nil_r. Qed.

Lemma extends_trans w1 w2 w3 l1 l2 :
  extends w1 w2 l1 → extends w2 w3 l2 → extends w1 w3 (l1 ++ l2).
Proof. unfold extends. intros E1 E2. by rewrite E2, E1, app_assoc. Qed.

Lemma extends_frame w1 w2 w3 l : extends w1 w2 l → frame w2 w3 → extends w1 w3 l.
Proof. unfold extends. intros E [F _ _ _ _ _]. by rewrite F. Qed.

Lemma new_ops_app w w' l : bridgeOps w' = bridgeOps w ++ l → new_ops w w' = l.
Proof. intros E. unfold new_ops. rewrite E. apply drop_app_length. Qed.

Lemma called_before_from_sound a b l seen :
  called_before_from seen a b l = true →
  ∀ l1 l2, l = l1 ++ b :: l2 → seen = true ∨ a ∈ l1.
Proof.
  revert seen. induction l as [|x l IH]; intros seen H l1 l2 E.
  - by destruct l1.
  - simpl in H. apply andb_true_iff in H as [H1 H2].
    destruct l1 as [|y l1]; simplify_eq/=.
    + rewrite bool_decide_eq_true_2 in H1 by done. by left.
    + destruct (IH _ H2 l1 l2 eq_refl) as [S|I].
      * apply orb_true_iff in S as [S|S]; [by left|].
        apply bool_decide_eq_true in S. subst. right. by left.
      * right. by right.
Qed.

Lemma called_before_check a b l :
  called_before_from false a b l = true → called_before a b l.
Proof.
  intros H l1 l2 E. by destruct (called_before_from_sound _ _ _ _ H l1 l2 E).
Qed.

(** ** Programs over the Bridge and the Store *)

Lemma frame_trans w1 w2 w3 : frame w1 w2 → frame w2 w3 → frame w1 w3.
Proof. intros [] []; constructor; congruence. Qed.

Lemma perform_frame b o w : frame w (perform b o w).2.
Proof. destruct o; simpl; repeat case_match; simplify_eq/=; by constructor. Qed.

Lemma run_script_frame {A} db (s : Script A) w : frame w (run_script db s w).2.
Proof.
  revert w. induction s as [a|e|o k IH]; intros w; simpl; [by constructor..|].
  pose proof (perform_frame (bridge db) o (add_op o w)) as F.
  destruct (perform (bridge db) o (add_op o w)) as [r w1]. simpl in F.
  assert (frame w w1) as F1 by (destruct F; by constructor).
  destruct r as [| | |[]]; simpl; eauto using frame_trans.
Qed.

Lemma perform_ops b o w : bridgeOps (perform b o w).2 = bridgeOps w.
Proof. destruct o; simpl; repeat case_match; simplify_eq/=; done. Qed.

Lemma perform_read b o w :
  is_bridge_write o = false →
  (perform b o w).1 ≠ Failed WriteDenied ∧ source (perform b o w).2 = source w.
Proof. destruct o; simpl; intros; repeat case_match; simplify_eq/=; done. Qed.

Lemma perform_audit_write b o w :
  bridge_kind b = Audit → is_bridge_write o = true →
  perform b o w = (Failed WriteDenied, w).
Proof. intros K. destruct o; simpl; intros; simplify_eq/=; by rewrite K. Qed.

(** Under an Audit bridge a program leaves the source as it was, and the
    first write it attempts ends it with WriteDenied. *)
Lemma run_script_audit {A} db (s : Script A) w :
  bridge_kind (bridge db) = Audit →
  source (run_script db s w).2 = source w ∧
  ∃ l, bridgeOps (run_script db s w).2 = bridgeOps w ++ l ∧
       (attempts_write l = true → (run_script db s w).1 = Err WriteDenied).
Proof.
  intros K. revert w. induction s as [a|e|o k IH]; intros w; simpl.
  - split; [done|]. exists []. by rewrite app_nil_r.
  - split; [done|]. exists []. by rewrite app_nil_r.
  - destruct (is_bridge_write o) eqn:W.
    + rewrite (perform_audit_write _ _ _ K W). simpl. split; [done|]. by exists [o].
    + pose proof (perform_read (bridge db) o (add_op o w) W) as [R S].
      pose proof (perform_ops (bridge db) o (add_op o w)) as O.
      destruct (perform (bridge db) o (add_op o w)) as [r w1]. simpl in R, S, O.
      destruct (IH r w1) as [S1 (l & L & D)].
      assert ((let (r0, w') := run_script db (k r) w1 in (r0, w'))
              = run_script db (k r) w1) as E by by destruct (run_script db (k r) w1).
      destruct r as [| | |[]]; try done; rewrite ?E, S1, S; (split; [done|]);
        exists (o :: l); rewrite L, O; simpl; rewrite <- app_assoc, W; done.
Qed.

(** ** [ConfigBuilder.build] *)

Lemma called_before_prefix a b l1 l2 :
  l1 `prefix_of` l2 → called_before a b l2 → called_before a b l1.
Proof.
  intros [k ->] H l3 l4 E. apply (H l3 (l4 ++ k)).
  rewrite E. by rewrite <- app_assoc.
Qed.

Lemma world_eq w w' :
  source w = source w' → generated w = generated w' → records w = records w' →
  storeOpen w = storeOpen w' → cache w = cache w' → outputPath w = outputPath w' →
  lastIndexed w = lastIndexed w' → calls w = calls w' → bridgeOps w = bridgeOps w' →
  w = w'.
Proof. destruct w, w'; simpl; congruence. Qed.

Lemma prepared_run ext o rootPath usingTs w :
  let p := path_join [rootPath; ".tina"; "__generated__"] in
  set_storeOpen true
    (add_call CallStoreOpen
       (set_generated
          (resetGeneratedFolder ext p usingTs (negb (bo_local o))
             (ensure_dir p (generated w)))
          (add_call (CallResetGeneratedFolder (negb (bo_local o)))
             (set_storeOpen false
                (add_call CallStoreClose
                   (set_generated (ensure_dir p (generated w))
                      (add_call (CallMkdirp p)
                         (set_cache ∅
                            (add_call CallClearCache (add_call CallIsProjectTs w)))))))))) =
  prepared ext o rootPath usingTs w.
Proof.
  intros p. apply world_eq; simpl; try reflexivity. by rewrite <- !app_assoc.
Qed.

Lemma redirected_run ext this cs w :
  ((if hasAddOutputPath ext (bridge (database this))
    then match truthy (remoteRootPath cs) with
         | Some p => addOutputPath (bridge (database this)) p
         | None => mret ()
         end
    else mret ()) : M unit) w = (Ok (), redirected ext this cs w).
Proof.
  unfold redirected. destruct (hasAddOutputPath _ _); [|done].
  by destruct (truthy _).
Qed.

(** [build] leaves by one of its five exits. *)
Lemma build_exit_complete ext this o w :
  build_exit ext this o w (build ext this o w).1 (build ext this o w).2.
Proof.
  unfold build, mbind, M_bind, log, lift.
  destruct (isProjectTs ext (bo_rootPath o)) as [usingTs|e] eqn:E1; simpl;
    [|by apply exit_probe_threw].
  destruct (truthy (bo_rootPath o)) as [rootPath|] eqn:E2; simpl;
    [|by eapply exit_no_root_path].
  unfold clearCache, mkdirp, store_close, store_open, on_generated, modify, log, mbind, M_bind.
  simpl. pose proof (prepared_run ext o rootPath usingTs w) as P. simpl in P. rewrite P. clear P.
  destruct (compileSchema _ _ _ _ _) as [[cs|e] g] eqn:E3; simpl;
    [|by eapply exit_schema_invalid].
  pose proof (redirected_run ext this cs) as R. unfold mbind, M_bind in R. rewrite R. clear R.
  fold (compiled g (prepared ext o rootPath usingTs w)).
  destruct (run_script _ _ _) as [[[gql tina]|e] w'] eqn:E4; simpl.
  - by eapply exit_built.
  - by eapply exit_build_schema_threw.
Qed.

Lemma redirected_calls ext this cs w :
  ∃ out q, optional_call out (CallAddOutputPath q) ∧
           calls (redirected ext this cs w) = calls w ++ out.
Proof.
  unfold redirected. destruct (hasAddOutputPath _ _).
  - destruct (truthy _) as [q|].
    + exists [CallAddOutputPath q], q. split; [by right|done].
    + exists [], "". split; [by left|]. by rewrite app_nil_r.
  - exists [], "". split; [by left|]. by rewrite app_nil_r.
Qed.

(** The calls of a build are a prefix of the plan, and all of it when the
    build returns. *)
Lemma build_calls ext this o w :
  let p := tinaGeneratedPath (default "" (truthy (bo_rootPath o))) in
  ∃ l out q,
    extends w (build ext this o w).2 l ∧
    optional_call out (CallAddOutputPath q) ∧
    l `prefix_of` build_plan p (negb (bo_local o)) out ∧
    (is_ok (build ext this o w).1 = true → l = build_plan p (negb (bo_local o)) out).
Proof.
  intros p.
  destruct (build_exit_complete ext this o w)
    as [e E1|usingTs E1 E2|usingTs rootPath e g E1 E2 E3
        |usingTs rootPath cs g e w' E1 E2 E3 E4|usingTs rootPath cs g gql tina w' E1 E2 E3 E4].
  - exists [CallIsProjectTs], [], "". splits; [done|by left|by eexists|done].
  - exists [CallIsProjectTs], [], "". splits; [done|by left|by eexists|done].
  - eexists _, [], "".
    split; [unfold extends; simpl; by rewrite <- app_assoc|].
    splits; [by left| |done].
    unfold p. rewrite E2. by eexists.
  - destruct (redirected_calls ext this cs (compiled g (prepared ext o rootPath usingTs w)))
      as (out & q & Hout & C).
    pose proof (run_script_frame (database this)
      (buildSchema ext rootPath ["experimentalData"; "isomorphicGitBridge"])
      (add_call CallBuildSchema (redirected ext this cs (compiled g (prepared ext o rootPath usingTs w)))))
      as F.
    rewrite E4 in F. simpl in F.
    exists (build_plan p (negb (bo_local o)) out), out, q.
    split; [|done].
    eapply extends_frame; [|exact F].
    unfold extends, build_plan, p. rewrite E2. simpl. rewrite C. by assoc.
  - destruct (redirected_calls ext this cs (compiled g (prepared ext o rootPath usingTs w)))
      as (out & q & Hout & C).
    pose proof (run_script_frame (database this)
      (buildSchema ext rootPath ["experimentalData"; "isomorphicGitBridge"])
      (add_call CallBuildSchema (redirected ext this cs (compiled g (prepared ext o rootPath usingTs w)))))
      as F.
    rewrite E4 in F. simpl in F.
    exists (build_plan p (negb (bo_local o)) out), out, q.
    split; [|done].
    eapply extends_frame; [|exact F].
    unfold extends, build_plan, p. rewrite E2. simpl. rewrite C. by assoc.
Qed.

(** ** The build commands *)

Lemma genTypedClient_calls ext this usingTs cs noSDK verbose local port rootPath w :
  let r := genTypedClient ext this usingTs cs noSDK verbose local port rootPath w in
  ∃ l, extends w r.2 l ∧
       l `prefix_of` [CallGetASTSchema; CallGenTypes; CallGenClient] ∧
       (is_ok r.1 = true → l = [CallGetASTSchema; CallGenTypes; CallGenClient]).
Proof.
  unfold genTypedClient, mbind, M_bind, on_generated. simpl.
  pose proof (run_script_frame (database this) (getASTSchema ext)
                (add_call CallGetASTSchema w)) as F.
  destruct (run_script _ _ _) as [[ast|e] w1]; simpl in *.
  - destruct (genTypes _ _ _ _ _ _ _) as [[[]|e] g1]; simpl.
    + destruct (genClient _ _ _ _ _ _ _) as [[url|e] g2]; simpl;
        (exists [CallGetASTSchema; CallGenTypes; CallGenClient]; split; [|done]);
        unfold extends; simpl; destruct F as [-> _ _ _ _ _]; simpl; by rewrite <- !app_assoc.
    + exists [CallGetASTSchema; CallGenTypes]. split; [|split; [by eexists|done]].
      unfold extends; simpl; destruct F as [-> _ _ _ _ _]; simpl; by rewrite <- !app_assoc.
  - exists [CallGetASTSchema]. split; [|split; [by eexists|done]].
    unfold extends; simpl; by destruct F as [-> _ _ _ _ _].
Qed.

Lemma buildAdmin_calls ext cs local rootPath apiUrl w :
  ∃ vite, optional_call vite CallViteBuild ∧
          extends w (buildAdmin ext cs local rootPath apiUrl w).2 vite.
Proof.
  unfold buildAdmin. destruct (_ ≫= _) as [b|].
  - exists [CallViteBuild]. split; [by right|].
    unfold spin, mbind, M_bind, lift, log. simpl.
    by destruct local; destruct (viteBuild _ _).
  - exists []. split; [by left|]. apply extends_refl.
Qed.

Lemma buildAdmin_threw ext cs local rootPath apiUrl w e w' :
  buildAdmin ext cs local rootPath apiUrl w = (Err e, w') →
  extends w w' [CallViteBuild].
Proof.
  unfold buildAdmin. destruct (_ ≫= _) as [b|]; [|done].
  unfold spin, mbind, M_bind, lift, log. simpl.
  destruct local; destruct (viteBuild _ _); intros; by simplify_eq.
Qed.

(** The calls of [buildCmdBuild], up to and including its call of [next],
    are a prefix of the plan. *)
Lemma buildCmdBuild_calls ext ctx options w :
  let r := buildCmdBuild ext ctx finish options w in
  let p := tinaGeneratedPath (default "" (truthy (spread_rootPath ctx options))) in
  ∃ l out q vite,
    extends w r.2 l ∧
    optional_call out (CallAddOutputPath q) ∧ optional_call vite CallViteBuild ∧
    l `prefix_of` build_command_plan p (negb (co_local options)) out vite ∧
    (is_ok r.1 = true → l = build_command_plan p (negb (co_local options)) out vite).
Proof.
  intros r p. unfold r. clear r.
  unfold buildCmdBuild, attached, mbind, M_bind.
  destruct (ctx_builder ctx) as [this|]; simpl.
  2:{ exists [], [], "", []. split; [apply extends_refl|].
      splits; [by left|by left|apply prefix_nil|done]. }
  fold (build_options ctx options).
  destruct (build_calls ext this (build_options ctx options) w)
    as (l1 & out & q & X1 & Hout & P1 & F1).
  simpl in X1, P1, F1. fold p in P1, F1.
  destruct (build ext this (build_options ctx options) w) as [[r|e] w1]; simpl in *.
  2:{ exists l1, out, q, []. split; [done|].
      splits; [done|by left|by apply prefix_app_r|done]. }
  rewrite (F1 eq_refl) in X1. clear F1 P1 l1.
  pose proof (genTypedClient_calls ext this (ctx_usingTs ctx) (schema r) (co_noSDK options)
                (co_verbose options) (Some (co_local options)) (co_port options) None w1)
    as (l2 & X2 & P2 & F2).
  destruct (genTypedClient _ _ _ _ _ _ _ _ _ _) as [[apiUrl|e] w2]; simpl in *.
  2:{ exists (build_plan p (negb (co_local options)) out ++ l2), out, q, [].
      split; [by eapply extends_trans|].
      splits; [done|by left| |done].
      apply prefix_app.
      change [CallGetASTSchema; CallGenTypes; CallGenClient; CallNext]
        with ([CallGetASTSchema; CallGenTypes; CallGenClient] ++ [CallNext]).
      by apply prefix_app_r. }
  rewrite (F2 eq_refl) in X2. clear F2 P2 l2.
  destruct (buildAdmin_calls ext (schema r) (co_local options) (ctx_rootPath ctx) apiUrl w2)
    as (vite & Hvite & X3).
  destruct (buildAdmin _ _ _ _ _ _) as [[[]|e] w3] eqn:A; simpl in *.
  - exists (build_command_plan p (negb (co_local options)) out vite), out, q, vite.
    split; [|done].
    unfold extends, build_command_plan, build_plan in *. simpl.
    rewrite X3, X2, X1. by assoc.
  - apply buildAdmin_threw in A.
    exists (build_plan p (negb (co_local options)) out
            ++ [CallGetASTSchema; CallGenTypes; CallGenClient] ++ [CallViteBuild]),
      out, q, [CallViteBuild].
    split; [eauto using extends_trans|].
    split; [done|]. split; [by right|]. split; [|done].
    unfold build_command_plan. apply prefix_app. by eexists [CallNext].
Qed.

(** The calls of [auditCmdBuild], up to and including its call of [next]. *)
Lemma auditCmdBuild_calls ext ctx options w :
  let r := auditCmdBuild ext ctx finish options w in
  let p := tinaGeneratedPath (default "" (truthy (spread_rootPath ctx options))) in
  ∃ l out q,
    extends w r.2 l ∧
    optional_call out (CallAddOutputPath q) ∧
    l `prefix_of` audit_command_plan p (negb (co_local options)) out ∧
    (is_ok r.1 = true → l = audit_command_plan p (negb (co_local options)) out).
Proof.
  intros r p. unfold r. clear r.
  unfold auditCmdBuild, spin, attached, database_indexContent, modify, mbind, M_bind.
  destruct (ctx_builder ctx) as [this|]; simpl.
  2:{ exists [], [], "". split; [apply extends_refl|].
      splits; [by left|apply prefix_nil|done]. }
  fold (audit_options ctx options).
  destruct (build_calls ext this (audit_options ctx options) w)
    as (l1 & out & q & X1 & Hout & P1 & F1).
  simpl in X1, P1, F1. fold p in P1, F1.
  destruct (build ext this (audit_options ctx options) w) as [[r|e] w1]; simpl in *.
  2:{ exists l1, out, q. split; [done|].
      splits; [done|by apply prefix_app_r|done]. }
  rewrite (F1 eq_refl) in X1. clear F1 P1 l1.
  destruct (ctx_database ctx) as [db|]; simpl.
  2:{ exists (build_plan p (negb (co_local options)) out), out, q.
      split; [done|]. splits; [done|by apply prefix_app_r|done]. }
  pose proof (run_script_frame db (indexContent ext (graphQLSchema r) (tinaSchema r))
                (add_call CallIndexContent w1)) as F.
  destruct (run_script _ _ _) as [[[]|e] w2]; simpl in *.
  - exists (audit_command_plan p (negb (co_local options)) out), out, q.
    split; [|done].
    unfold extends, audit_command_plan, build_plan in *. simpl.
    destruct F as [-> _ _ _ _ _]. simpl. rewrite X1. by assoc.
  - exists (build_plan p (negb (co_local options)) out ++ [CallIndexContent]), out, q.
    split; [|split; [done|split; [|done]]].
    + unfold extends in *. destruct F as [-> _ _ _ _ _]. simpl. rewrite X1. by assoc.
    + unfold audit_command_plan. apply prefix_app. by eexists [CallNext].
Qed.

(** ** The setup commands *)

Lemma ensure_dir_exists p g : is_Some (ensure_dir p g !! p).
Proof.
  unfold ensure_dir. destruct (g !! p) eqn:E; [by rewrite E|].
  rewrite lookup_insert_eq. by eexists.
Qed.

Lemma set_up_dir_exists pre rootPath w :
  dir_exists (tinaGeneratedPath rootPath) (set_up pre rootPath w).
Proof. apply ensure_dir_exists. Qed.

Lemma buildSetup_run ext iso rootPath useMem w :
  let s := {| store_rootPath := rootPath; useMemoryStore := useMem |} in
  (∃ b pre w', bridge_rootPath b = rootPath ∧
     (bridge_kind b = Direct ∨ bridge_kind b = VersionControl) ∧
     optional_call pre CallMakeIsomorphicOptions ∧
     buildSetup ext iso rootPath useMem w = (Ok ({| bridge := b; store := s |}, b, s), w') ∧
     add_call CallNext w' = set_up pre rootPath w ∧
     ∀ useMem', buildSetup ext iso rootPath useMem' w
       = (Ok ({| bridge := b; store := {| store_rootPath := rootPath; useMemoryStore := useMem' |} |},
              b, {| store_rootPath := rootPath; useMemoryStore := useMem' |}), w'))
  ∨ (∃ e, flag iso = true ∧ makeIsomorphicOptions ext (FilesystemBridge rootPath) = Err e ∧
       ∀ useMem', buildSetup ext iso rootPath useMem' w
                  = (Err e, add_call CallMakeIsomorphicOptions w)).
Proof.
  intros s. unfold buildSetup, ensureDirSync, createDatabase, mbind, M_bind, lift, log, modify.
  destruct (flag iso) eqn:Fl; simpl.
  - destruct (makeIsomorphicOptions ext (FilesystemBridge rootPath)) as [o|e] eqn:Mk; simpl.
    + left. eexists (IsomorphicBridge rootPath (Some o)), [CallMakeIsomorphicOptions], _.
      splits; [done|by right|by right|reflexivity| |done].
      apply world_eq; simpl; try done. by assoc.
    + right. by exists e.
  - left. eexists (FilesystemBridge rootPath), [], _.
    splits; [done|by left|by left|reflexivity| |done].
    apply world_eq; simpl; try done. by assoc.
Qed.

(** A setup of the build or the server-start command either stops at
    [makeIsomorphicOptions] or calls [next] with the database attached. *)
Lemma buildSetupCmd_run ext ctx next opts w :
  let root := ctx_rootPath ctx in
  (∃ b pre, bridge_rootPath b = root ∧
     (bridge_kind b = Direct ∨ bridge_kind b = VersionControl) ∧
     optional_call pre CallMakeIsomorphicOptions ∧
     buildSetupCmdBuild ext ctx next opts w
     = next (attach ctx b {| bridge := b;
                             store := {| store_rootPath := root; useMemoryStore := true |} |})
            (set_up pre root w) ∧
     buildSetupCmdServerStart ext ctx next opts w
     = next (attach ctx b {| bridge := b;
                             store := {| store_rootPath := root; useMemoryStore := false |} |})
            (set_up pre root w))
  ∨ (∃ e, flag (isomorphicGitBridge opts) = true ∧
       makeIsomorphicOptions ext (FilesystemBridge root) = Err e ∧
       buildSetupCmdBuild ext ctx next opts w = (Err e, add_call CallMakeIsomorphicOptions w) ∧
       buildSetupCmdServerStart ext ctx next opts w
       = (Err e, add_call CallMakeIsomorphicOptions w)).
Proof.
  intros root. unfold buildSetupCmdBuild, buildSetupCmdServerStart, mbind, M_bind.
  destruct (buildSetup_run ext (isomorphicGitBridge opts) root true w)
    as [(b & pre & w' & Hb & Hk & Hpre & _ & Hw & E)|(e & Fl & Mk & E)].
  - left. exists b, pre. rewrite !E. simpl. by rewrite Hw.
  - right. exists e. by rewrite !E.
Qed.

Lemma buildSetupCmdAudit_run ctx next (clean : bool) w :
  let root := ctx_rootPath ctx in
  let b := if clean then FilesystemBridge root else AuditFileSystemBridge root in
  buildSetupCmdAudit ctx next clean w
  = next (attach ctx b {| bridge := b;
                          store := {| store_rootPath := root; useMemoryStore := false |} |})
         (set_up [] root w).
Proof.
  intros root b.
  unfold buildSetupCmdAudit, ensureDirSync, createDatabase, mbind, M_bind, lift, log, modify.
  simpl. f_equal. apply world_eq; simpl; try done. by assoc.
Qed.

(** C4: the setup of the one-shot build command constructs the Database on
    an in-memory Store and the setup of the server-start command constructs
    it on a persistent, durable Store; both Stores, and the Bridge, are
    bound to the root path of the context.  The only other outcome of
    either setup is that [makeIsomorphicOptions] throws, and then no
    Database is constructed. *)
Theorem setup_store_variants ext ctx next opts w :
  let root := ctx_rootPath ctx in
  let memory := {| store_rootPath := root; useMemoryStore := true |} in
  let level := {| store_rootPath := root; useMemoryStore := false |} in
  (store_variant memory = InMemory ∧ durable (store_variant memory) = false) ∧
  (store_variant level = Persistent ∧ durable (store_variant level) = true) ∧
  ((∃ b pre, bridge_rootPath b = root ∧
      buildSetupCmdBuild ext ctx next opts w
      = next (attach ctx b {| bridge := b; store := memory |}) (set_up pre root w) ∧
      buildSetupCmdServerStart ext ctx next opts w
      = next (attach ctx b {| bridge := b; store := level |}) (set_up pre root w))
   ∨ (∃ e, makeIsomorphicOptions ext (FilesystemBridge root) = Err e ∧
        buildSetupCmdBuild ext ctx next opts w
        = (Err e, add_call CallMakeIsomorphicOptions w) ∧
        buildSetupCmdServerStart ext ctx next opts w
        = (Err e, add_call CallMakeIsomorphicOptions w))).
Proof.
  intros root memory level. splits; try done.
  destruct (buildSetupCmd_run ext ctx next opts w)
    as [(b & pre & Hb & _ & _ & E1 & E2)|(e & _ & Mk & E1 & E2)].
  - left. by exists b, pre.
  - right. by exists e.
Qed.

(** The setup of the build command on the sample project: a Direct bridge
    and an in-memory Store on the project root, in a world in which the
    generated folder exists. *)
Example sample_build_setup :
  buildSetupCmdBuild sample_ext sample_ctx (λ ctx, lift (Ok ())) sample_setup_options
    sample_world
  = (Ok (), set_up [] "/site" sample_world) ∧
  generated (set_up [] "/site" sample_world) !! "/site/.tina/__generated__" = Some ∅.
Proof. split; by vm_compute. Qed.

(** ** Order of the calls of a plan *)

Lemma called_before_head a b l0 rest :
  a ∈ l0 → b ∉ l0 → called_before a b (l0 ++ rest).
Proof.
  intros Ha Hb l1 l2 E. apply app_eq_inv in E as [(k & -> & E)|(k & -> & _)].
  - destruct k as [|x k]; simplify_eq/=.
    + by rewrite app_nil_r in Ha.
    + exfalso. apply Hb. apply elem_of_app. right. by left.
  - apply elem_of_app. by left.
Qed.

Lemma prefix_not_elem_of (x : Call) l1 l2 : l1 `prefix_of` l2 → x ∉ l2 → x ∉ l1.
Proof. intros [k ->] H I. apply H, elem_of_app. by left. Qed.

Ltac absent :=
  let H := fresh in
  unfold build_command_plan, audit_command_plan, build_plan; simpl; intros H; repeat (apply elem_of_cons in H as [H|H]; [discriminate H|]);
  by apply elem_of_nil in H.

Ltac ordered := apply called_before_check; reflexivity.

Lemma new_calls_build_prefix ext this o w :
  ∃ out q, optional_call out (CallAddOutputPath q) ∧
    new_calls w (build ext this o w).2
    `prefix_of` build_plan (tinaGeneratedPath (default "" (truthy (bo_rootPath o))))
                  (negb (bo_local o)) out.
Proof.
  destruct (build_calls ext this o w) as (l & out & q & X & Hout & P & _).
  exists out, q. by rewrite (new_calls_app _ _ _ X).
Qed.

(** [ConfigBuilder.build] past the probe and the root-path check: the
    cache is cleared and the directory made, and the build sequence runs in
    the world that these two calls leave. *)
Lemma build_from_made_directory ext this o w usingTs rootPath :
  isProjectTs ext (bo_rootPath o) = Ok usingTs →
  truthy (bo_rootPath o) = Some rootPath →
  build ext this o w
  = build_sequence ext this o rootPath usingTs
      ((clearCache (database this);; mkdirp (tinaGeneratedPath rootPath))
         (add_call CallIsProjectTs w)).2.
Proof.
  intros E T. unfold build, build_sequence, tinaGeneratedPath.
  unfold mbind at 1. unfold M_bind at 1.
  unfold mbind at 1. unfold M_bind at 1. unfold log at 1, lift at 1.
  cbv beta iota. rewrite E, T. cbv beta iota.
  reflexivity.
Qed.

(** C8: the setup of the build and of the server-start command, and the
    setup of the audit command, call [next] in a world in which the
    directory [<rootPath>/.tina/__generated__] exists (a setup that stops
    at [makeIsomorphicOptions] never calls [next]).  In
    [ConfigBuilder.build] the call of [mkdirp] comes before the Store is
    closed, the folder reset, the schema compiled and the query-layer
    schema built, and the build sequence, from [store.close()] on, runs in
    the world that [clearCache] and [mkdirp] leave: there the directory
    exists, the folders being as they were when it existed before and with
    the directory added, empty, when it did not.  A build whose probe
    throws or that has no root path starts nothing. *)
Theorem generated_directory_exists ext ctx next opts (clean : bool) this o w :
  let root := ctx_rootPath ctx in
  ((∃ ctx1 ctx2 pre,
      dir_exists (tinaGeneratedPath root) (set_up pre root w) ∧
      buildSetupCmdBuild ext ctx next opts w = next ctx1 (set_up pre root w) ∧
      buildSetupCmdServerStart ext ctx next opts w = next ctx2 (set_up pre root w))
   ∨ (∃ e, buildSetupCmdBuild ext ctx next opts w
           = (Err e, add_call CallMakeIsomorphicOptions w) ∧
           buildSetupCmdServerStart ext ctx next opts w
           = (Err e, add_call CallMakeIsomorphicOptions w))) ∧
  (∃ ctx3,
      dir_exists (tinaGeneratedPath root) (set_up [] root w) ∧
      buildSetupCmdAudit ctx next clean w = next ctx3 (set_up [] root w)) ∧
  match truthy (bo_rootPath o) with
  | Some rootPath =>
      let p := tinaGeneratedPath rootPath in
      Forall (λ c, called_before (CallMkdirp p) c (new_calls w (build ext this o w).2))
        [CallStoreClose; CallResetGeneratedFolder (negb (bo_local o)); CallStoreOpen;
         CallCompileSchema; CallBuildSchema] ∧
      match isProjectTs ext (bo_rootPath o) with
      | Ok usingTs =>
          let made :=
            ((clearCache (database this);; mkdirp p) (add_call CallIsProjectTs w)).2 in
          dir_exists p made ∧
          generated made
          = (if generated w !! p is Some _ then generated w else <[p := ∅]> (generated w)) ∧
          new_calls w made = [CallIsProjectTs; CallClearCache; CallMkdirp p] ∧
          build ext this o w = build_sequence ext this o rootPath usingTs made
      | Err e => build ext this o w = (Err e, add_call CallIsProjectTs w)
      end
  | None => new_calls w (build ext this o w).2 `prefix_of` [CallIsProjectTs]
  end.
Proof.
  intros root. splits.
  - destruct (buildSetupCmd_run ext ctx next opts w)
      as [(b & pre & _ & _ & _ & E1 & E2)|(e & _ & _ & E1 & E2)].
    + left. eexists _, _, pre. split; [apply set_up_dir_exists|done].
    + right. by exists e.
  - eexists. split; [apply set_up_dir_exists|apply buildSetupCmdAudit_run].
  - destruct (truthy (bo_rootPath o)) as [rootPath|] eqn:T.
    + split.
      * destruct (new_calls_build_prefix ext this o w) as (out & q & Hout & P).
        rewrite T in P. simpl in P.
        repeat apply Forall_cons_2; [..|apply Forall_nil_2];
          (eapply called_before_prefix; [exact P|]);
          apply (called_before_head _ _
                   [CallIsProjectTs; CallClearCache; CallMkdirp (tinaGeneratedPath rootPath)]);
          [set_solver|absent|set_solver|absent|set_solver|absent|set_solver|absent
          |set_solver|absent].
      * destruct (isProjectTs ext (bo_rootPath o)) as [usingTs|e] eqn:E.
        -- cbv zeta. splits.
           ++ apply ensure_dir_exists.
           ++ done.
           ++ apply new_calls_app. simpl. by assoc.
           ++ by apply build_from_made_directory.
        -- unfold build, mbind, M_bind, log, lift. simpl. by rewrite E.
    + destruct (build_exit_complete ext this o w)
        as [e E1|usingTs E1 E2|usingTs rootPath e g E1 E2 E3
            |usingTs rootPath cs g e w' E1 E2 E3 E4|usingTs rootPath cs g gql tina w' E1 E2 E3 E4];
        try congruence; by rewrite (new_calls_app _ _ [CallIsProjectTs]).
Qed.

(** ** The root-path check *)

Lemma build_falsy_root_path ext this o w :
  truthy (bo_rootPath o) = None →
  build ext this o w
  = (Err (match isProjectTs ext (bo_rootPath o) with
          | Ok _ => RootPathNotAttached
          | Err e => e
          end), add_call CallIsProjectTs w).
Proof.
  intros T. unfold build, mbind, M_bind, log, lift. simpl.
  destruct (isProjectTs ext (bo_rootPath o)); simpl; [|done]. by rewrite T.
Qed.

(** C6: a call of [ConfigBuilder.build] without a root path fails, with
    the error "Root path has not been attached" unless the probe
    [isProjectTs], which runs before the check, has thrown already; nothing
    after the check is executed: the world is the one before the call, the
    call of the probe logged. *)
Theorem build_without_root_path ext this o w :
  bo_rootPath o = None →
  (∃ e, (build ext this o w).1 = Err e ∧
        (e = RootPathNotAttached ∨ isProjectTs ext None = Err e)) ∧
  (build ext this o w).2 = add_call CallIsProjectTs w ∧
  new_calls w (build ext this o w).2 = [CallIsProjectTs].
Proof.
  intros N. rewrite build_falsy_root_path by by rewrite N. simpl. rewrite N.
  splits; [|done|by apply new_calls_app].
  destruct (isProjectTs ext None) as [b|e]; eauto.
Qed.

(** The theorem at the sample project, built without a root path. *)
Lemma build_without_root_path_witness :
  bo_rootPath rootless_build_options = None ∧
  (build sample_ext {| database := sample_database |} rootless_build_options sample_world).2
  = add_call CallIsProjectTs sample_world.
Proof.
  split; [reflexivity|].
  apply (build_without_root_path sample_ext {| database := sample_database |}
           rootless_build_options sample_world eq_refl).
Defined.

(** ** Clearing the cache *)


(** ** A schema that does not compile *)

Lemma command_rethrows ext ctx next options this o w e w' :
  ctx_builder ctx = Some this →
  build ext this o w = (Err e, w') →
  (build_options ctx options = o → buildCmdBuild ext ctx next options w = (Err e, w')) ∧
  (audit_options ctx options = o → auditCmdBuild ext ctx next options w = (Err e, w')).
Proof.
  intros B E. unfold buildCmdBuild, auditCmdBuild, attached, mbind, M_bind. rewrite B. simpl.
  fold (build_options ctx options). fold (audit_options ctx options).
  split; intros ->; by rewrite E.
Qed.

(** C2, as the code has it: when [compileSchema] rejects the schema, the
    build stops there with the compiler's error: [addOutputPath] and
    [buildSchema] are not reached, the build commands return the same error
    without generating the client, indexing or calling [next]; the Records
    of the Store and the source are as before the build and the Store is
    open.  The generated folder is what the compiler left of the folder
    that [mkdirp] created and [resetGeneratedFolder] reset before the
    compilation started. *)
Theorem schema_invalid_halts_build ext this o w usingTs rootPath e g :
  isProjectTs ext (bo_rootPath o) = Ok usingTs →
  truthy (bo_rootPath o) = Some rootPath →
  compileSchema ext (bo_verbose o) (bo_dev o) rootPath
    (resetGeneratedFolder ext (tinaGeneratedPath rootPath) usingTs (negb (bo_local o))
       (ensure_dir (tinaGeneratedPath rootPath) (generated w))) = (Err e, g) →
  (build ext this o w).1 = Err e ∧
  new_calls w (build ext this o w).2
  = [CallIsProjectTs; CallClearCache; CallMkdirp (tinaGeneratedPath rootPath);
     CallStoreClose; CallResetGeneratedFolder (negb (bo_local o)); CallStoreOpen;
     CallCompileSchema] ∧
  new_ops w (build ext this o w).2 = [] ∧
  records (build ext this o w).2 = records w ∧
  source (build ext this o w).2 = source w ∧
  storeOpen (build ext this o w).2 = true ∧
  generated (build ext this o w).2 = g ∧
  (∀ ctx next options, ctx_builder ctx = Some this →
     (build_options ctx options = o →
      buildCmdBuild ext ctx next options w = (Err e, (build ext this o w).2)) ∧
     (audit_options ctx options = o →
      auditCmdBuild ext ctx next options w = (Err e, (build ext this o w).2))).
Proof.
  intros E1 E2 E3.
  assert (build ext this o w = (Err e, compiled g (prepared ext o rootPath usingTs w))) as B.
  { pose proof (build_exit_complete ext this o w) as X.
    destruct (build ext this o w) as [r w1]. simpl in X.
    destruct X as [e' H1|ts H1 H2|ts root e' g' H1 H2 H3
                   |ts root cs g' e' w' H1 H2 H3 H4|ts root cs g' gql tina w' H1 H2 H3 H4];
      try congruence;
      assert (ts = usingTs) as -> by congruence;
      assert (root = rootPath) as -> by congruence;
      unfold tinaGeneratedPath in *; simpl in H3; rewrite E3 in H3; by simplify_eq. }
  rewrite B. simpl. splits; try done.
  - apply new_calls_app. simpl. by assoc.
  - apply new_ops_app. simpl. by rewrite app_nil_r.
  - intros ctx next options Hb. by apply (command_rethrows ext ctx next options this o w).
Qed.

(** The theorem at the sample project with the schema that the compiler
    rejects. *)
Lemma schema_invalid_halts_build_witness :
  isProjectTs invalid_schema_ext (bo_rootPath sample_build_options) = Ok true ∧
  truthy (bo_rootPath sample_build_options) = Some "/site" ∧
  compileSchema invalid_schema_ext None None "/site"
    (resetGeneratedFolder invalid_schema_ext (tinaGeneratedPath "/site") true true
       (ensure_dir (tinaGeneratedPath "/site") (generated sample_world)))
  = (Err SchemaInvalid, {[tinaGeneratedPath "/site" := ∅]}) ∧
  (build invalid_schema_ext {| database := sample_database |} sample_build_options
     sample_world).1 = Err SchemaInvalid ∧
  records (build invalid_schema_ext {| database := sample_database |} sample_build_options
             sample_world).2 = records sample_world.
Proof.
  splits; [reflexivity|reflexivity|reflexivity|..];
    apply (schema_invalid_halts_build invalid_schema_ext {| database := sample_database |}
             sample_build_options sample_world true "/site" SchemaInvalid
             {[tinaGeneratedPath "/site" := ∅]}); reflexivity.
Defined.

(** C2, as stated, fails: the generated folder does not exist before the
    build and exists after the build that the invalid schema halted. *)
Lemma schema_invalid_build_leaves_generated_folder :
  let r := build invalid_schema_ext {| database := sample_database |} sample_build_options
             sample_world in
  r.1 = Err SchemaInvalid ∧
  generated sample_world !! tinaGeneratedPath "/site" = None ∧
  generated r.2 !! tinaGeneratedPath "/site" = Some ∅ ∧
  generated r.2 ≠ generated sample_world.
Proof.
  intros r. splits; [reflexivity..|].
  intros H. apply (f_equal (λ g, g !! tinaGeneratedPath "/site")) in H. discriminate H.
Qed.

(** ** The order of the calls of a run *)

(** C3, as the code has it: in every run of [buildCmdBuild] the Store is
    closed and reopened before the schema is compiled, then the query-layer
    schema is built and the client generated, and [next] is called last;
    [indexContent] is never called.  In every run of [auditCmdBuild] the
    Store is closed and reopened before the schema is compiled, then the
    query-layer schema is built and [indexContent] called, and [next] is
    called last; the client is never generated.  A run that returns has
    made every call of its plan. *)
Theorem command_call_order ext ctx options w :
  let p := tinaGeneratedPath (default "" (truthy (spread_rootPath ctx options))) in
  let isBuild := negb (co_local options) in
  let b := buildCmdBuild ext ctx finish options w in
  let a := auditCmdBuild ext ctx finish options w in
  (in_order [CallClearCache; CallStoreClose; CallStoreOpen; CallCompileSchema;
             CallBuildSchema; CallGetASTSchema; CallGenTypes; CallGenClient; CallNext]
     (new_calls w b.2) ∧
   (CallIndexContent ∉ new_calls w b.2) ∧
   (∃ out vite q,
      optional_call out (CallAddOutputPath q) ∧ optional_call vite CallViteBuild ∧
      match b.1 with
      | Ok _ => new_calls w b.2 = build_command_plan p isBuild out vite
      | Err _ => new_calls w b.2 `prefix_of` build_command_plan p isBuild out vite
      end)) ∧
  (in_order [CallClearCache; CallStoreClose; CallStoreOpen; CallCompileSchema;
             CallBuildSchema; CallIndexContent; CallNext]
     (new_calls w a.2) ∧
   (CallGenClient ∉ new_calls w a.2) ∧
   (∃ out q,
      optional_call out (CallAddOutputPath q) ∧
      match a.1 with
      | Ok _ => new_calls w a.2 = audit_command_plan p isBuild out
      | Err _ => new_calls w a.2 `prefix_of` audit_command_plan p isBuild out
      end)).
Proof.
  intros p isBuild b a. cbn [in_order]. split.
  - destruct (buildCmdBuild_calls ext ctx options w)
      as (l & out & q & vite & X & Hout & Hvite & P & F).
    fold b p isBuild in X, P, F. rewrite (new_calls_app _ _ _ X). splits.
    1-8: eapply called_before_prefix; [exact P|];
         destruct Hout as [->| ->], Hvite as [->| ->]; ordered.
    + done.
    + eapply prefix_not_elem_of; [exact P|].
      destruct Hout as [->| ->], Hvite as [->| ->]; absent.
    + exists out, vite, q. splits; [done..|].
      destruct b.1; [by apply F|done].
  - destruct (auditCmdBuild_calls ext ctx options w) as (l & out & q & X & Hout & P & F).
    fold a p isBuild in X, P, F. rewrite (new_calls_app _ _ _ X). splits.
    1-6: eapply called_before_prefix; [exact P|]; destruct Hout as [->| ->]; ordered.
    + done.
    + eapply prefix_not_elem_of; [exact P|]. destruct Hout as [->| ->]; absent.
    + exists out, q. split; [done|]. destruct a.1; [by apply F|done].
Qed.

(** C3, as stated, fails: in the audit run of the sample project the Store
    is closed and reopened before the schema is compiled, not after; and
    the run of the build command goes from compiling to generating the
    client without indexing. *)
Lemma store_reopened_before_schema_compiled :
  let a := auditCmdBuild sample_ext sample_attached_ctx finish sample_options sample_world in
  let b := buildCmdBuild sample_ext sample_attached_ctx finish sample_options sample_world in
  a.1 = Ok () ∧
  new_calls sample_world a.2
  = [CallIsProjectTs; CallClearCache; CallMkdirp "/site/.tina/__generated__";
     CallStoreClose; CallResetGeneratedFolder true; CallStoreOpen; CallCompileSchema;
     CallBuildSchema; CallIndexContent; CallNext] ∧
  ¬ called_before CallCompileSchema CallStoreClose (new_calls sample_world a.2) ∧
  ¬ called_before CallCompileSchema CallStoreOpen (new_calls sample_world a.2) ∧
  b.1 = Ok () ∧
  new_calls sample_world b.2
  = [CallIsProjectTs; CallClearCache; CallMkdirp "/site/.tina/__generated__";
     CallStoreClose; CallResetGeneratedFolder true; CallStoreOpen; CallCompileSchema;
     CallBuildSchema; CallGetASTSchema; CallGenTypes; CallGenClient; CallNext].
Proof.
  intros a b.
  assert (new_calls sample_world a.2
          = [CallIsProjectTs; CallClearCache; CallMkdirp "/site/.tina/__generated__";
             CallStoreClose; CallResetGeneratedFolder true; CallStoreOpen;
             CallCompileSchema; CallBuildSchema; CallIndexContent; CallNext]) as E
    by (vm_compute; reflexivity).
  splits; [by vm_compute|exact E| | |by vm_compute|by vm_compute]; rewrite E; intros H.
  - specialize (H [CallIsProjectTs; CallClearCache; CallMkdirp "/site/.tina/__generated__"]
                  _ eq_refl).
    revert H. absent.
  - specialize (H [CallIsProjectTs; CallClearCache; CallMkdirp "/site/.tina/__generated__";
                   CallStoreClose; CallResetGeneratedFolder true]
                  _ eq_refl).
    revert H. absent.
Qed.

(** ** Indexing in the build command *)

Lemma build_command_run ext ctx opts options w :
  let root := ctx_rootPath ctx in
  (∃ ctx' pre, optional_call pre CallMakeIsomorphicOptions ∧
     build_command ext ctx opts options w
     = buildCmdBuild ext ctx' finish options (set_up pre root w))
  ∨ (∃ e, build_command ext ctx opts options w
          = (Err e, add_call CallMakeIsomorphicOptions w)).
Proof.
  intros root. unfold build_command.
  destruct (buildSetupCmd_run ext ctx (λ ctx, buildCmdBuild ext ctx finish options) opts w)
    as [(b & pre & _ & _ & Hpre & E & _)|(e & _ & _ & E & _)].
  - left. by eexists _, pre.
  - right. by exists e.
Qed.

(** C5, as the code has it: no run of [buildCmdBuild], and no run of the
    build command with its setup, calls [indexContent], whatever the state
    of the source. *)
Theorem build_command_never_indexes ext ctx opts options w :
  (CallIndexContent ∉ new_calls w (buildCmdBuild ext ctx finish options w).2) ∧
  (CallIndexContent ∉ new_calls w (build_command ext ctx opts options w).2).
Proof.
  assert (∀ ctx w, CallIndexContent ∉ new_calls w (buildCmdBuild ext ctx finish options w).2)
    as Cmd.
  { intros ctx0 w0. destruct (buildCmdBuild_calls ext ctx0 options w0)
      as (l & out & q & vite & X & Hout & Hvite & P & _).
    rewrite (new_calls_app _ _ _ X). eapply prefix_not_elem_of; [exact P|].
    destruct Hout as [->| ->], Hvite as [->| ->]; absent. }
  split; [apply Cmd|].
  destruct (build_command_run ext ctx opts options w) as [(ctx' & pre & Hpre & ->)|(e & ->)].
  - specialize (Cmd ctx' (set_up pre (ctx_rootPath ctx) w)).
    destruct (buildCmdBuild_calls ext ctx' options (set_up pre (ctx_rootPath ctx) w))
      as (l & _ & _ & _ & X & _).
    rewrite (new_calls_app _ _ _ X) in Cmd.
    erewrite new_calls_app; [|eapply (extends_trans w (set_up pre (ctx_rootPath ctx) w));
                               [reflexivity|exact X]].
    intros [H|H]%elem_of_app; [|done]. revert H.
    destruct Hpre as [->| ->]; absent.
  - simpl. rewrite (new_calls_app _ _ [CallMakeIsomorphicOptions]) by done. absent.
Qed.

(** C5, as stated, fails: the sample source was edited since it was last
    indexed, and the run of the build command generates the client without
    a call of [indexContent]. *)
Lemma edited_source_is_not_reindexed :
  let r := build_command sample_ext sample_ctx sample_setup_options sample_options
             sample_world in
  content_changed sample_world ∧
  r.1 = Ok () ∧
  new_calls sample_world r.2
  = [CallEnsureDir "/site/.tina/__generated__"; CallCreateDatabase; CallNext;
     CallIsProjectTs; CallClearCache; CallMkdirp "/site/.tina/__generated__";
     CallStoreClose; CallResetGeneratedFolder true; CallStoreOpen; CallCompileSchema;
     CallBuildSchema; CallGetASTSchema; CallGenTypes; CallGenClient; CallNext] ∧
  (CallGenClient ∈ new_calls sample_world r.2) ∧
  (CallIndexContent ∉ new_calls sample_world r.2) ∧
  lastIndexed r.2 = lastIndexed sample_world.
Proof.
  intros r.
  assert (new_calls sample_world r.2
          = [CallEnsureDir "/site/.tina/__generated__"; CallCreateDatabase; CallNext;
             CallIsProjectTs; CallClearCache; CallMkdirp "/site/.tina/__generated__";
             CallStoreClose; CallResetGeneratedFolder true; CallStoreOpen;
             CallCompileSchema; CallBuildSchema; CallGetASTSchema; CallGenTypes;
             CallGenClient; CallNext]) as E by (vm_compute; reflexivity).
  splits; [|by vm_compute|exact E| | |by vm_compute]; rewrite ?E.
  - intros H. apply (f_equal (λ o, o ≫= (.!! "posts/a.md"))) in H. discriminate H.
  - rewrite !elem_of_cons. tauto.
  - absent.
Qed.

(** ** The audit run *)

Lemma attempts_write_app l1 l2 :
  attempts_write (l1 ++ l2) = attempts_write l1 || attempts_write l2.
Proof. apply existsb_app. Qed.

(** A build on an Audit bridge leaves the source as it was; a write that
    [buildSchema] attempts ends the build with WriteDenied. *)
Lemma build_audit ext this o w :
  bridge_kind (bridge (database this)) = Audit →
  source (build ext this o w).2 = source w ∧
  ∃ l, bridgeOps (build ext this o w).2 = bridgeOps w ++ l ∧
       (attempts_write l = true → (build ext this o w).1 = Err WriteDenied).
Proof.
  intros K. pose proof (build_exit_complete ext this o w) as X.
  destruct (build ext this o w) as [r w1]. simpl in *.
  destruct X as [e' H1|ts H1 H2|ts root e' g' H1 H2 H3
                 |ts root cs g' e' w' H1 H2 H3 H4|ts root cs g' gql tina w' H1 H2 H3 H4].
  1-3: split; [done|]; exists [];
       (split; [simpl; by rewrite app_nil_r|intros ?; discriminate]).
  all: destruct (run_script_audit (database this)
         (buildSchema ext root ["experimentalData"; "isomorphicGitBridge"])
         (add_call CallBuildSchema
            (redirected ext this cs (compiled g' (prepared ext o root ts w)))) K)
         as [S (l & L & D)];
       rewrite H4 in S, L, D; simpl in S, L, D;
       assert (∀ w0, source (redirected ext this cs w0) = source w0
                     ∧ bridgeOps (redirected ext this cs w0) = bridgeOps w0) as R
         by (intros w0; unfold redirected; by repeat case_match);
       destruct (R (compiled g' (prepared ext o root ts w))) as [R1 R2];
       rewrite R1 in S; rewrite R2 in L; simpl in L; (split; [done|]); exists l;
       (split; [done|]); intros W; apply D in W; by simplify_eq.
Qed.

(** [auditCmdBuild] on an Audit bridge leaves the source as it was; a
    write that [buildSchema] or [indexContent] attempts ends the command
    with WriteDenied. *)
Lemma auditCmdBuild_audit ext ctx next options db w :
  ctx_builder ctx = Some {| database := db |} →
  ctx_database ctx = Some db →
  bridge_kind (bridge db) = Audit →
  (∀ ctx' w', source (next ctx' w').2 = source w' ∧ bridgeOps (next ctx' w').2 = bridgeOps w') →
  source (auditCmdBuild ext ctx next options w).2 = source w ∧
  ∃ l, bridgeOps (auditCmdBuild ext ctx next options w).2 = bridgeOps w ++ l ∧
       (attempts_write l = true →
        (auditCmdBuild ext ctx next options w).1 = Err WriteDenied).
Proof.
  intros B D K N.
  unfold auditCmdBuild, spin, attached, database_indexContent, modify, mbind, M_bind, log.
  rewrite B, D. simpl. fold (audit_options ctx options).
  destruct (build_audit ext {| database := db |} (audit_options ctx options) w K)
    as [S1 (l1 & L1 & W1)].
  destruct (build ext {| database := db |} (audit_options ctx options) w) as [[r|e] w1];
    simpl in *;
    [|split; [done|]; exists l1; split; [done|]; intros W; apply W1 in W; by simplify_eq].
  destruct (run_script_audit db (indexContent ext (graphQLSchema r) (tinaSchema r))
              (add_call CallIndexContent w1) K) as [S2 (l2 & L2 & W2)].
  destruct (run_script db _ _) as [[[]|e] w2]; simpl in *.
  - destruct (N ctx (add_call CallNext (set_lastIndexed (Some (source w2)) w2))) as [-> ->].
    simpl. split; [congruence|]. exists (l1 ++ l2).
    split; [by rewrite L2, L1, app_assoc|].
    rewrite attempts_write_app. intros [H|H]%orb_true_iff; [by apply W1 in H|by apply W2 in H].
  - split; [congruence|]. exists (l1 ++ l2).
    split; [by rewrite L2, L1, app_assoc|].
    rewrite attempts_write_app. intros [H|H]%orb_true_iff; [by apply W1 in H|by apply W2].
Qed.

(** C1, as the code has it: the setup of an audit run without [clean]
    binds the Database to an [AuditFileSystemBridge], an Audit bridge whose
    [put] and [delete] fail with WriteDenied and change nothing; the source
    after such a run is the source before it, and the run either attempted
    no write or ended with WriteDenied. *)
Theorem audit_run_leaves_source ext ctx options w :
  let root := ctx_rootPath ctx in
  let b := AuditFileSystemBridge root in
  let db := {| bridge := b; store := {| store_rootPath := root; useMemoryStore := false |} |} in
  let r := audit_command ext ctx false options w in
  (∀ next, buildSetupCmdAudit ctx next false w = next (attach ctx b db) (set_up [] root w)) ∧
  bridge_kind b = Audit ∧
  (∀ p c w0, perform b (BridgePut p c) w0 = (Failed WriteDenied, w0) ∧
             perform b (BridgeDelete p) w0 = (Failed WriteDenied, w0)) ∧
  source r.2 = source w ∧
  (attempts_write (new_ops w r.2) = false ∨ r.1 = Err WriteDenied).
Proof.
  intros root b db r.
  assert (r = auditCmdBuild ext (attach ctx b db) finish options (set_up [] root w)) as E
    by apply buildSetupCmdAudit_run.
  splits; [|done..| |].
  - intros next. apply buildSetupCmdAudit_run.
  - rewrite E.
    by destruct (auditCmdBuild_audit ext (attach ctx b db) finish options db
                   (set_up [] root w)) as [-> _].
  - rewrite E.
    destruct (auditCmdBuild_audit ext (attach ctx b db) finish options db
                (set_up [] root w)) as [_ (l & L & W)]; [done..|].
    rewrite (new_ops_app w _ l) by exact L.
    destruct (attempts_write l); [right; by apply W|by left].
Qed.

(** The audit run without [clean] of the project whose indexing pass
    rewrites an entry: the write is denied and the entry is as before. *)
Example audit_run_denies_rewrite :
  let r := audit_command rewriting_ext sample_ctx false sample_options sample_world in
  r.1 = Err WriteDenied ∧
  attempts_write (new_ops sample_world r.2) = true ∧
  source r.2 !! "posts/a.md" = Some "title: A".
Proof. by vm_compute. Qed.

(** C1, as stated, fails: the audit run with [clean] binds the Database to
    a [FilesystemBridge]; the indexing pass that rewrites an entry succeeds
    and the source is changed. *)
Lemma clean_audit_run_rewrites_source :
  let r := audit_command rewriting_ext sample_ctx true sample_options sample_world in
  audit_command rewriting_ext sample_ctx true sample_options sample_world
  = auditCmdBuild rewriting_ext
      (attach sample_ctx (FilesystemBridge "/site")
         {| bridge := FilesystemBridge "/site";
            store := {| store_rootPath := "/site"; useMemoryStore := false |} |})
      finish sample_options (set_up [] "/site" sample_world) ∧
  bridge_kind (FilesystemBridge "/site") = Direct ∧
  r.1 = Ok () ∧
  attempts_write (new_ops sample_world r.2) = true ∧
  source sample_world !! "posts/a.md" = Some "title: A" ∧
  source r.2 !! "posts/a.md" = Some "title: A (cleaned)" ∧
  source r.2 ≠ source sample_world.
Proof.
  intros r. splits; [apply buildSetupCmdAudit_run|by vm_compute..|].
  intros H. apply (f_equal (.!! "posts/a.md")) in H. vm_compute in H. discriminate H.
Qed.

(** ** More on the setup commands *)

(** X1: the setup of the build and of the server-start command binds the
    Database to a [FilesystemBridge] on the root path, without a call of
    [makeIsomorphicOptions], unless [isomorphicGitBridge] is set; then it
    binds it to an [IsomorphicBridge] with the options that
    [makeIsomorphicOptions] returned for the filesystem bridge, and when
    that call throws the setup stops before the generated folder is
    created.  The context handed to [next] has that bridge, the database
    and a builder on the database attached. *)
Theorem setup_bridge_choice ext ctx next opts w :
  let root := ctx_rootPath ctx in
  let fs := FilesystemBridge root in
  let outcome useMem :=
    if flag (isomorphicGitBridge opts)
    then match makeIsomorphicOptions ext fs with
         | Ok o =>
             let b := IsomorphicBridge root (Some o) in
             next (attach ctx b
                     {| bridge := b;
                        store := {| store_rootPath := root; useMemoryStore := useMem |} |})
                  (set_up [CallMakeIsomorphicOptions] root w)
         | Err e => (Err e, add_call CallMakeIsomorphicOptions w)
         end
    else next (attach ctx fs
                 {| bridge := fs;
                    store := {| store_rootPath := root; useMemoryStore := useMem |} |})
              (set_up [] root w) in
  buildSetupCmdBuild ext ctx next opts w = outcome true ∧
  buildSetupCmdServerStart ext ctx next opts w = outcome false ∧
  (∀ b db, ctx_bridge (attach ctx b db) = Some b ∧
           ctx_database (attach ctx b db) = Some db ∧
           ctx_builder (attach ctx b db) = Some {| database := db |} ∧
           ctx_rootPath (attach ctx b db) = root).
Proof.
  intros root fs outcome. subst outcome fs root. cbv zeta.
  split; [|split; [|intros b db; splits; reflexivity]].
  all: unfold buildSetupCmdBuild, buildSetupCmdServerStart, buildSetup, ensureDirSync,
         createDatabase, mbind, M_bind, lift, log, modify;
       destruct (flag (isomorphicGitBridge opts)); simpl;
       [destruct (makeIsomorphicOptions ext (FilesystemBridge (ctx_rootPath ctx))) as [o|e];
        simpl; [|done]|];
       f_equal; apply world_eq; simpl; try done; by assoc.
Qed.

(** ** The output path *)

(** X3: once the schema is compiled, [build] calls [bridge.addOutputPath]
    exactly when the bridge has that method and the compiled schema's
    [config.remote.rootPath] is a non-empty string, with that string,
    between [compileSchema] and [buildSchema]; the output path of the
    bridge is then that string, and is untouched otherwise. *)
Theorem output_path_redirection ext this o w usingTs rootPath cs g :
  isProjectTs ext (bo_rootPath o) = Ok usingTs →
  truthy (bo_rootPath o) = Some rootPath →
  compileSchema ext (bo_verbose o) (bo_dev o) rootPath
    (resetGeneratedFolder ext (tinaGeneratedPath rootPath) usingTs (negb (bo_local o))
       (ensure_dir (tinaGeneratedPath rootPath) (generated w))) = (Ok cs, g) →
  let redirect :=
    if hasAddOutputPath ext (bridge (database this))
    then truthy (remoteRootPath cs) else None in
  outputPath (build ext this o w).2 = from_option Some (outputPath w) redirect ∧
  new_calls w (build ext this o w).2
  = build_plan (tinaGeneratedPath rootPath) (negb (bo_local o))
      (from_option (λ p, [CallAddOutputPath p]) [] redirect).
Proof.
  intros E1 E2 E3 redirect.
  pose proof (build_exit_complete ext this o w) as X.
  destruct (build ext this o w) as [r w1]. simpl in X |- *.
  assert (∀ w0, outputPath (redirected ext this cs w0)
                = from_option Some (outputPath w0) redirect ∧
                calls (redirected ext this cs w0)
                = calls w0 ++ from_option (λ p, [CallAddOutputPath p]) [] redirect) as R.
  { intros w0. unfold redirected, redirect.
    destruct (hasAddOutputPath _ _); simpl; [|by rewrite app_nil_r].
    destruct (truthy (remoteRootPath cs)); simpl; [done|by rewrite app_nil_r]. }
  destruct X as [e' H1|ts H1 H2|ts root e' g' H1 H2 H3
                 |ts root cs' g' e' w' H1 H2 H3 H4|ts root cs' g' gql tina w' H1 H2 H3 H4];
    try congruence;
    assert (ts = usingTs) as -> by congruence;
    assert (root = rootPath) as -> by congruence;
    unfold tinaGeneratedPath in *; simpl in H3; rewrite E3 in H3;
    try discriminate H3; injection H3 as <- <-.
  all: pose proof (run_script_frame (database this)
         (buildSchema ext rootPath ["experimentalData"; "isomorphicGitBridge"])
         (add_call CallBuildSchema
            (redirected ext this cs (compiled g (prepared ext o rootPath usingTs w))))) as F;
       rewrite H4 in F; destruct F as [Fc _ _ _ Fo _]; simpl in Fc, Fo;
       destruct (R (compiled g (prepared ext o rootPath usingTs w))) as [Ro Rc];
       split; [by rewrite Fo, Ro|];
       apply new_calls_app; rewrite Fc, Rc; unfold build_plan; simpl; by assoc.
Qed.

(** The theorem at the sample project whose schema has the remote root path
    [content]. *)
Lemma output_path_redirection_witness :
  isProjectTs remote_ext (bo_rootPath sample_build_options) = Ok true ∧
  truthy (bo_rootPath sample_build_options) = Some "/site" ∧
  compileSchema remote_ext None None "/site"
    (resetGeneratedFolder remote_ext (tinaGeneratedPath "/site") true true
       (ensure_dir (tinaGeneratedPath "/site") (generated sample_world)))
  = (Ok remote_schema, {[tinaGeneratedPath "/site" := ∅]}) ∧
  outputPath (build remote_ext {| database := sample_database |} sample_build_options
                sample_world).2 = Some "content".
Proof.
  splits; [reflexivity..|].
  apply (output_path_redirection remote_ext {| database := sample_database |}
           sample_build_options sample_world true "/site" remote_schema
           {[tinaGeneratedPath "/site" := ∅]}); reflexivity.
Defined.

(** ** The root path of the options *)

(** X4: the root path that the build commands hand to [build] is the
    [rootPath] property of the options object when it has one, even an
    undefined or empty one, and the root path of the context otherwise.
    When it is undefined or empty both commands stop at the root-path
    check: they return its error (or the error of the probe), the world is
    unchanged but for the logged probe, and [next] is not called. *)
Theorem falsy_root_option_stops_commands ext ctx next options this w :
  ctx_builder ctx = Some this →
  truthy (from_option id (Some (ctx_rootPath ctx)) (co_rootPath options)) = None →
  let stopped :=
    (Err (match isProjectTs ext (from_option id (Some (ctx_rootPath ctx))
                                   (co_rootPath options)) with
          | Ok _ => RootPathNotAttached
          | Err e => e
          end), add_call CallIsProjectTs w) in
  buildCmdBuild ext ctx next options w = stopped ∧
  auditCmdBuild ext ctx next options w = stopped.
Proof.
  intros B T stopped.
  assert (from_option id (Some (ctx_rootPath ctx)) (co_rootPath options)
          = spread_rootPath ctx options) as S
    by (unfold spread_rootPath; by destruct (co_rootPath options)).
  rewrite S in T. unfold stopped. rewrite S.
  split.
  - apply (command_rethrows ext ctx next options this (build_options ctx options) w);
      [done| |done].
    by rewrite build_falsy_root_path.
  - apply (command_rethrows ext ctx next options this (audit_options ctx options) w);
      [done| |done].
    by rewrite build_falsy_root_path.
Qed.

(** The theorem at the sample context, whose root path is [/site], with
    options whose [rootPath] is [undefined]. *)
Lemma falsy_root_option_stops_commands_witness :
  ctx_builder sample_attached_ctx = Some {| database := sample_database |} ∧
  truthy (from_option id (Some (ctx_rootPath sample_attached_ctx))
            (co_rootPath undefined_root_options)) = None ∧
  buildCmdBuild sample_ext sample_attached_ctx finish undefined_root_options sample_world
  = (Err RootPathNotAttached, add_call CallIsProjectTs sample_world).
Proof.
  splits; [reflexivity..|].
  apply (falsy_root_option_stops_commands sample_ext sample_attached_ctx finish
           undefined_root_options {| database := sample_database |} sample_world);
    reflexivity.
Defined.

(** ** The admin build *)

(** X5: [buildAdmin] does nothing when the schema has no [config.build]:
    it returns without a call of [viteBuild] and the world is unchanged.
    With a [config.build] it calls [viteBuild] once, local or not, with the
    output folder, public folder and host of that section and the given
    root path and API URL, and returns or throws what [viteBuild] does.  In
    a run of [buildCmdBuild] that call comes only after the client is
    generated; [auditCmdBuild] never calls [viteBuild]. *)
Theorem buildAdmin_runs_vite_on_build_config ext cs local rootPath apiUrl ctx options w :
  buildAdmin ext cs local rootPath apiUrl w
  = match schema_config cs with
    | Some {| config_build := Some b |} =>
        (viteBuild ext {| vite_local := local; vite_rootPath := rootPath;
                          vite_outputFolder := outputFolder b;
                          vite_publicFolder := publicFolder b;
                          vite_apiUrl := apiUrl; vite_host := host b |},
         add_call CallViteBuild w)
    | _ => (Ok (), w)
    end ∧
  called_before CallGenClient CallViteBuild
    (new_calls w (buildCmdBuild ext ctx finish options w).2) ∧
  (CallViteBuild ∉ new_calls w (auditCmdBuild ext ctx finish options w).2).
Proof.
  splits.
  - unfold buildAdmin, spin, mbind, M_bind, lift, log.
    destruct (schema_config cs) as [[r [b|]]|]; simpl; try done.
    by destruct local.
  - destruct (buildCmdBuild_calls ext ctx options w)
      as (l & out & q & vite & X & Hout & Hvite & P & _).
    rewrite (new_calls_app _ _ _ X). eapply called_before_prefix; [exact P|].
    destruct Hout as [->| ->], Hvite as [->| ->]; ordered.
  - destruct (auditCmdBuild_calls ext ctx options w) as (l & out & q & X & Hout & P & _).
    rewrite (new_calls_app _ _ _ X). eapply prefix_not_elem_of; [exact P|].
    destruct Hout as [->| ->]; absent.
Qed.

(** ** The call of [next] *)

(** X13: a build command calls [next] only as its last step, after every
    stage has succeeded: when a stage throws, the command ends with that
    error whatever [next] is.  [buildCmdBuild] then hands on the context
    with the compiled schema as [schema] and the URL that [genClient]
    returned as [apiUrl]; [auditCmdBuild] hands on the context as it
    received it. *)
Theorem commands_call_next_last ext ctx next options w :
  let b0 := buildCmdBuild ext ctx finish options w in
  let a0 := auditCmdBuild ext ctx finish options w in
  match b0.1 with
  | Err _ => buildCmdBuild ext ctx next options w = b0
  | Ok _ =>
      ∃ this r w1 url w2,
        ctx_builder ctx = Some this ∧
        build ext this (build_options ctx options) w = (Ok r, w1) ∧
        genTypedClient ext this (ctx_usingTs ctx) (schema r) (co_noSDK options)
          (co_verbose options) (Some (co_local options)) (co_port options) None w1
        = (Ok url, w2) ∧
        buildCmdBuild ext ctx next options w
        = next (set_ctx_apiUrl url (set_ctx_schema (schema r) ctx)) b0.2
  end ∧
  match a0.1 with
  | Err _ => auditCmdBuild ext ctx next options w = a0
  | Ok _ => auditCmdBuild ext ctx next options w = next ctx a0.2
  end.
Proof.
  intros b0 a0. subst b0 a0. split.
  - unfold buildCmdBuild, attached, finish, mbind, M_bind, log.
    destruct (ctx_builder ctx) as [this|]; simpl; [|done].
    fold (build_options ctx options).
    destruct (build ext this (build_options ctx options) w) as [[r|e] w1] eqn:B;
      simpl; [|done].
    destruct (genTypedClient _ _ _ _ _ _ _ _ _ _) as [[url|e] w2] eqn:G; simpl; [|done].
    destruct (buildAdmin _ _ _ _ _ _) as [[[]|e] w3]; simpl; [|done].
    by exists this, r, w1, url, w2.
  - unfold auditCmdBuild, spin, attached, database_indexContent, modify, finish,
      mbind, M_bind, log.
    destruct (ctx_builder ctx) as [this|]; simpl; [|done].
    destruct (build ext this _ w) as [[r|e] w1]; simpl; [|done].
    destruct (ctx_database ctx) as [db|]; simpl; [|done].
    by destruct (run_script db _ _) as [[[]|e] w2].
Qed.

(** ** The reset of the generated folder *)

Lemma called_while_closed_from_sound closed c l :
  called_while_closed_from closed c l = true →
  ∀ pre l1 l2, store_closed_after pre = closed → l = l1 ++ c :: l2 →
               store_closed_after (pre ++ l1) = true.
Proof.
  revert closed. induction l as [|x l IH]; intros closed H pre l1 l2 S E.
  - by destruct l1.
  - simpl in H. apply andb_true_iff in H as [H1 H2].
    destruct l1 as [|y l1]; simplify_eq/=.
    + rewrite bool_decide_eq_true_2 in H1 by done. by rewrite app_nil_r.
    + rewrite (cons_middle y pre l1), app_assoc.
      apply (IH _ H2 (pre ++ [y]) l1 l2); [|done].
      unfold store_closed_after. by rewrite foldl_snoc.
Qed.

Lemma called_while_closed_check c l :
  called_while_closed_from false c l = true → called_while_closed c l.
Proof.
  intros H l1 l2 E. exact (called_while_closed_from_sound _ _ _ H [] l1 l2 eq_refl E).
Qed.

Lemma called_while_closed_prefix c l1 l2 :
  l1 `prefix_of` l2 → called_while_closed c l2 → called_while_closed c l1.
Proof.
  intros [k ->] H a b E. apply (H a (b ++ k)). rewrite E. by rewrite <- app_assoc.
Qed.

Ltac while_closed := apply called_while_closed_check; reflexivity.

(** X14: in every run of [ConfigBuilder.build], of [buildCmdBuild] and of
    [auditCmdBuild] the generated folder is reset, with [isBuild] the
    negation of [local], only while the Store is closed: at every call of
    [resetGeneratedFolder] the run has called [store.close()], and
    [store.open()] not since; [store.open()] is called only after the
    reset; and the folder is never reset with the other value of the
    flag. *)
Theorem generated_folder_reset_while_store_closed ext this o ctx options w :
  let reset_in isBuild l :=
    called_while_closed (CallResetGeneratedFolder isBuild) l ∧
    in_order [CallStoreClose; CallResetGeneratedFolder isBuild; CallStoreOpen] l ∧
    CallResetGeneratedFolder (negb isBuild) ∉ l in
  reset_in (negb (bo_local o)) (new_calls w (build ext this o w).2) ∧
  reset_in (negb (co_local options))
    (new_calls w (buildCmdBuild ext ctx finish options w).2) ∧
  reset_in (negb (co_local options))
    (new_calls w (auditCmdBuild ext ctx finish options w).2).
Proof.
  intros reset_in. unfold reset_in. cbn [in_order]. splits; try done.
  1-4: destruct (new_calls_build_prefix ext this o w) as (out & q & Hout & P).
  1: eapply called_while_closed_prefix; [exact P|];
     destruct Hout as [->| ->], (bo_local o); while_closed.
  1-2: eapply called_before_prefix; [exact P|];
       destruct Hout as [->| ->], (bo_local o); ordered.
  1: eapply prefix_not_elem_of; [exact P|];
     destruct Hout as [->| ->], (bo_local o); absent.
  1-4: destruct (buildCmdBuild_calls ext ctx options w)
         as (l & out & q & vite & X & Hout & Hvite & P & _);
       rewrite (new_calls_app _ _ _ X).
  1: eapply called_while_closed_prefix; [exact P|];
     destruct Hout as [->| ->], Hvite as [->| ->], (co_local options); while_closed.
  1-2: eapply called_before_prefix; [exact P|];
       destruct Hout as [->| ->], Hvite as [->| ->], (co_local options); ordered.
  1: eapply prefix_not_elem_of; [exact P|];
     destruct Hout as [->| ->], Hvite as [->| ->], (co_local options); absent.
  1-4: destruct (auditCmdBuild_calls ext ctx options w) as (l & out & q & X & Hout & P & _);
       rewrite (new_calls_app _ _ _ X).
  1: eapply called_while_closed_prefix; [exact P|];
     destruct Hout as [->| ->], (co_local options); while_closed.
  1-2: eapply called_before_prefix; [exact P|];
       destruct Hout as [->| ->], (co_local options); ordered.
  eapply prefix_not_elem_of; [exact P|];
    destruct Hout as [->| ->], (co_local options); absent.
Qed.

End BuildTinaFacts.

(** * Facts about the cloud login *)

Module AuthFacts.

Import Auth.

Lemma on_message_login e pg props :
  login_data e = Some props →
  on_message e pg
  = {| promise := resolve (token_of props) (promise pg); authTab := authTab pg;
       closeCalls := match authTab pg with
                     | Some _ => S (closeCalls pg)
                     | None => closeCalls pg
                     end;
       uncaught := uncaught pg |}.
Proof.
  unfold login_data, on_message. destruct (data e) as [|ps]; [done|].
  destruct (strict_eq_string _ _); intros; by simplify_eq.
Qed.

Lemma on_message_other e pg :
  login_data e = None →
  promise (on_message e pg) = promise pg ∧ authTab (on_message e pg) = authTab pg ∧
  closeCalls (on_message e pg) = closeCalls pg.
Proof.
  unfold login_data, on_message. destruct (data e) as [|ps]; [done|].
  by destruct (strict_eq_string _ _).
Qed.

(** The page after a sequence of messages, from any page. *)
Lemma receive_spec events pg :
  promise (receive events pg)
  = match promise pg, first_login events with
    | Pending, Some props => Fulfilled (token_of props)
    | p, _ => p
    end ∧
  authTab (receive events pg) = authTab pg ∧
  closeCalls (receive events pg)
  = match authTab pg with
    | Some _ => closeCalls pg + length (omap login_data events)
    | None => closeCalls pg
    end.
Proof.
  revert pg. induction events as [|e events IH]; intros pg; simpl.
  - splits; [by destruct (promise pg)|done|destruct (authTab pg); simpl; by rewrite ?Nat.add_0_r].
  - destruct (IH (on_message e pg)) as (P & T & C). fold (receive events (on_message e pg)).
    rewrite P, T, C. unfold first_login. simpl.
    destruct (login_data e) as [props|] eqn:L.
    + rewrite (on_message_login _ _ _ L). simpl.
      splits; [|done|destruct (authTab pg); simpl; by rewrite ?Nat.add_succ_r].
      by destruct (promise pg).
    + destruct (on_message_other e pg L) as (-> & -> & ->). done.
Qed.

(** C9: the promise that [authenticate] returns is rejected exactly when
    [popupWindow] throws in the executor, with the exception thrown, and
    then stays rejected whatever messages arrive.  When [popupWindow]
    returns, the promise is never rejected: it is pending until the window
    receives a message whose [data.source] is ['tinaCloudLogin'], and
    fulfilled from the first such message on, with the [id_token],
    [access_token] and [refresh_token] of that message's data; the popup,
    when one was opened, has [close()] called once for every such message,
    and never otherwise. *)
Theorem authenticate_resolves_on_login b clientId frontendUrl events :
  let popup := popupWindow b (signin_url b clientId frontendUrl) "_blank" 1000 700 in
  let pg := page (dispatch events (authenticate b clientId frontendUrl)) in
  promise pg
  = match popup, first_login events with
    | PopupThrew reason, _ => Rejected reason
    | _, Some props =>
        Fulfilled {| id_token := prop props "id_token";
                     access_token := prop props "access_token";
                     refresh_token := prop props "refresh_token" |}
    | _, None => Pending
    end ∧
  (∀ reason, promise pg = Rejected reason ↔ popup = PopupThrew reason) ∧
  listening (authenticate b clientId frontendUrl)
  = (if popup is PopupThrew _ then false else true) ∧
  closeCalls pg
  = (if popup is PopupOpened then length (omap login_data events) else 0) ∧
  (∀ e, login_data e
        = match data e with
          | DataObject props =>
              if decide (props !! "source" = Some (JsString "tinaCloudLogin"))
              then Some props else None
          | DataNullish => None
          end).
Proof.
  intros popup pg.
  assert (promise pg
          = match popup, first_login events with
            | PopupThrew reason, _ => Rejected reason
            | _, Some props => Fulfilled (token_of props)
            | _, None => Pending
            end ∧
          closeCalls pg
          = (if popup is PopupOpened then length (omap login_data events) else 0))
    as [P C].
  { unfold pg, dispatch, authenticate. fold popup.
    destruct popup as [| |reason]; simpl; [| |done].
    - destruct (receive_spec events
                  {| promise := Pending;
                     authTab := Some (signin_url b clientId frontendUrl);
                     closeCalls := 0; uncaught := 0 |}) as (P & _ & C).
      simpl in P, C. rewrite P, C. by destruct (first_login events).
    - destruct (receive_spec events
                  {| promise := Pending; authTab := None;
                     closeCalls := 0; uncaught := 0 |}) as (P & _ & C).
      simpl in P, C. rewrite P, C. by destruct (first_login events). }
  splits.
  - exact P.
  - intros reason. rewrite P.
    destruct popup as [| |r]; destruct (first_login events); split; congruence.
  - unfold authenticate. fold popup. by destruct popup.
  - exact C.
  - intros e. unfold login_data, prop, strict_eq_string, TINA_LOGIN_EVENT.
    destruct (data e) as [|props]; [done|].
    destruct (props !! "source") as [[| | | |s]|]; simpl; try done.
    case_bool_decide; case_decide; congruence.
Qed.

(** C9, as stated, fails: in a browser in which [popupWindow] throws, the
    promise that [authenticate] returns is rejected, no listener is
    registered, and a login message leaves the promise rejected. *)
Lemma popup_exception_rejects_promise :
  let t := authenticate throwing_browser "client" "https://app.tina.io" in
  promise (page t) = Rejected "SecurityError" ∧
  listening t = false ∧
  is_login login_event = true ∧
  promise (page (dispatch [login_event] t)) = Rejected "SecurityError".
Proof. by vm_compute. Qed.

(** ** Messages that are not login messages *)

Lemma login_messages_only events :
  omap login_data (List.filter is_login events) = omap login_data events.
Proof.
  induction events as [|e events IH]; [done|].
  cbn [List.filter]. unfold is_login at 1.
  destruct (login_data e) as [props|] eqn:L; cbn [omap list_omap]; rewrite ?L; by rewrite IH.
Qed.

Lemma receive_uncaught events pg :
  uncaught (receive events pg) = uncaught pg + length (List.filter nullish events).
Proof.
  revert pg. induction events as [|e events IH]; intros pg; simpl.
  - by rewrite Nat.add_0_r.
  - fold (receive events (on_message e pg)). rewrite IH.
    unfold on_message, nullish. destruct (data e) as [|props]; simpl.
    + by rewrite Nat.add_succ_r.
    + by destruct (strict_eq_string _ _).
Qed.

(** X6: a message whose data is [null] or [undefined] makes the listener
    throw and changes nothing else, and a message with any other data that
    is not a login message changes nothing at all: the exceptions that
    leave the listener are as many as the messages without data, and the
    promise and the calls of [close()] are what the login messages alone
    would give. *)
Theorem other_messages_are_ignored events pg :
  uncaught (receive events pg) = uncaught pg + length (List.filter nullish events) ∧
  promise (receive events pg) = promise (receive (List.filter is_login events) pg) ∧
  closeCalls (receive events pg)
  = closeCalls (receive (List.filter is_login events) pg) ∧
  authTab (receive events pg) = authTab pg ∧
  (∀ e, is_login e = true ∨
        on_message e pg
        = if nullish e
          then {| promise := promise pg; authTab := authTab pg;
                  closeCalls := closeCalls pg; uncaught := S (uncaught pg) |}
          else pg).
Proof.
  destruct (receive_spec events pg) as (P & T & C).
  destruct (receive_spec (List.filter is_login events) pg) as (P' & _ & C').
  splits.
  - apply receive_uncaught.
  - rewrite P, P'. unfold first_login. by rewrite login_messages_only.
  - rewrite C, C'. by rewrite login_messages_only.
  - exact T.
  - intros e. unfold is_login, login_data, nullish, on_message.
    destruct (data e) as [|props]; [by right|].
    destruct (strict_eq_string _ _); [by left|by right].
Qed.

End AuthFacts.

(** * Facts about the media list items *)

Module MediaItemFacts.

Import MediaItem.

(** C10: [ListMediaItem] renders the Insert button exactly when [onSelect]
    is given and the item is a file, and the Delete button exactly when
    [onDelete] is given and the item is a file; the buttons call the
    handler on the item; a directory item has neither button. *)
Theorem buttons_for_files_only {Handler : Type} (props : MediaItemProps Handler) :
  renders "Button" (ListMediaItem props)
  = bool_decide (is_Some (onSelect props)) && bool_decide (media_type (item props) = file) ∧
  renders "IconButton" (ListMediaItem props)
  = bool_decide (is_Some (onDelete props)) && bool_decide (media_type (item props) = file) ∧
  omap click_of (find_all "Button" (ListMediaItem props))
  = match onSelect props, media_type (item props) with
    | Some h, file => [(h, item props)]
    | _, _ => []
    end ∧
  omap click_of (find_all "IconButton" (ListMediaItem props))
  = match onDelete props, media_type (item props) with
    | Some h, file => [(h, item props)]
    | _, _ => []
    end ∧
  match media_type (item props) with
  | dir => renders "Button" (ListMediaItem props) = false ∧
           renders "IconButton" (ListMediaItem props) = false
  | file => True
  end.
Proof.
  destruct props as [[ty i f d th] click sel del].
  unfold ListMediaItem, renders. simpl.
  destruct ty, sel, del, (truthy th); simpl; splits; reflexivity.
Qed.


(** X8: the click handlers of the list item are the row's, which calls
    [onClick] on the item for files and directories alike, then the Insert
    button's and the Delete button's when they are rendered, each on the
    item; nothing else handles a click.  The texts shown are the file name
    and the label of the Insert button. *)
Theorem list_item_clicks {Handler : Type} (props : MediaItemProps Handler) :
  let tree := ListMediaItem props in
  let on_file (h : option Handler) :=
    match h, media_type (item props) with
    | Some h, file => [(h, item props)]
    | _, _ => []
    end in
  click_of tree = Some (onClick props, item props) ∧
  clicks tree
  = (onClick props, item props) :: on_file (onSelect props) ++ on_file (onDelete props) ∧
  texts tree
  = filename (item props)
    :: (if renders "Button" tree then ["Insert"; " "] else []).
Proof.
  destruct props as [[ty i f d th] click sel del].
  unfold ListMediaItem, renders. simpl.
  destruct ty, sel, del, (truthy th); simpl; splits; reflexivity.
Qed.

(** X9: the grid item has one click handler, on its button: it calls
    [onClick] on the item when the item is not active and on [false] when
    it is; the [li] itself handles no click. *)
Theorem grid_item_click_toggles {Handler : Type} (props : GridItemProps Handler) :
  grid_clicks (GridMediaItem props)
  = [("button", (grid_onClick props,
                 if grid_active props then None else Some (grid_item props)))].
Proof.
  destruct props as [[ty i f d th] active click].
  unfold GridMediaItem. simpl. by destruct active, (truthy th).
Qed.


End MediaItemFacts.

(** * Facts about the rich-text field *)

Module MdxFieldFacts.

Import MdxField.

Section Plugin.

Context {Values Outcome FormState : Type}.
Context (base : Values → FormState → Outcome * FormState).

Lemma setKey_lookup field (pg : Page FormState) f :
  fields (setKey field (λ key, key + 1) pg) !! f
  = (if decide (field = f) then bumped 1 else id) <$> (fields pg !! f).
Proof.
  simpl. destruct (decide (field = f)) as [->|N].
  - by rewrite lookup_alter_eq.
  - rewrite lookup_alter_ne by done. by destruct (fields pg !! f).
Qed.

Lemma bumped_bumped n m h : bumped n (bumped m h) = bumped (m + n) h.
Proof. unfold bumped. simpl. by rewrite Nat.add_assoc. Qed.

(** One reset of a form with the given fields mounted. *)
Lemma mount_all_reset mountedFields initialValues (pg : Page FormState) :
  let r := mount_all mountedFields (form_reset base) initialValues pg in
  r.1 = (base initialValues (formState pg)).1 ∧
  formState r.2 = (base initialValues (formState pg)).2 ∧
  ∀ f, fields r.2 !! f
       = bumped (length (filter (λ x, x = f) mountedFields)) <$> (fields pg !! f).
Proof.
  revert pg. induction mountedFields as [|x l IH] using rev_ind; intros pg.
  - simpl. unfold form_reset. destruct (base initialValues (formState pg)) as [o s].
    simpl. splits; [done..|]. intros f. destruct (fields pg !! f) as [h|]; [|done].
    simpl. f_equal. destruct h. unfold bumped. simpl. by rewrite Nat.add_0_r.
  - unfold mount_all. rewrite foldl_snoc. fold (mount_all l (form_reset base)).
    unfold wrap_reset at 1. cbv zeta.
    destruct (IH (setKey x (λ key, key + 1) pg)) as (O & S & F).
    splits; [exact O|exact S|].
    intros f. rewrite F, setKey_lookup, filter_app, length_app.
    destruct (decide (x = f)) as [->|N].
    + rewrite filter_cons_True by done. rewrite filter_nil. simpl.
      destruct (fields pg !! f) as [h|]; [|done]. simpl.
      by rewrite bumped_bumped, Nat.add_comm.
    + rewrite filter_cons_False by done. rewrite filter_nil. simpl.
      rewrite Nat.add_0_r. by destruct (fields pg !! f).
Qed.

Lemma mounted_once (f : string) mountedFields :
  NoDup mountedFields →
  length (filter (λ x, x = f) mountedFields)
  = if decide (f ∈ mountedFields) then 1 else 0.
Proof.
  induction 1 as [|x l Hx _ IH].
  - by rewrite decide_False by apply not_elem_of_nil.
  - destruct (decide (x = f)) as [->|N].
    + rewrite filter_cons_True by done. simpl. rewrite IH.
      rewrite decide_False by done. rewrite decide_True by (apply elem_of_cons; by left). done.
    + rewrite filter_cons_False by done. rewrite IH.
      destruct (decide (f ∈ l)) as [I|I].
      * rewrite decide_True by (apply elem_of_cons; by right). done.
      * rewrite decide_False; [done|]. intros [?|?]%elem_of_cons; congruence.
Qed.

(** X11: with several rich-text field components mounted on one form, a
    call of [form.reset] returns what the form's own reset returns for the
    same initial values, leaves the form as that reset leaves it, and bumps
    the key of every mounted field once, whatever the order in which they
    mounted; it changes no field's mode and touches no other field. *)
Theorem reset_remounts_every_field mountedFields initialValues (pg : Page FormState) :
  NoDup mountedFields →
  let r := mount_all mountedFields (form_reset base) initialValues pg in
  r.1 = (base initialValues (formState pg)).1 ∧
  formState r.2 = (base initialValues (formState pg)).2 ∧
  (∀ f, key <$> (fields r.2 !! f)
        = (λ h, key h + if decide (f ∈ mountedFields) then 1 else 0)
            <$> (fields pg !! f)) ∧
  (∀ f, rawMode <$> (fields r.2 !! f) = rawMode <$> (fields pg !! f)).
Proof.
  intros D r. destruct (mount_all_reset mountedFields initialValues pg) as (O & S & F).
  fold r in O, S, F. splits; [exact O|exact S|..];
    intros f; rewrite F, ?(mounted_once f _ D); by destruct (fields pg !! f).
Qed.

Lemma run_field field (actions : list (Action Values)) (pg : Page FormState) :
  let reset := wrap_reset field (form_reset base) in
  fields (run reset actions pg) !! field
  = (λ h, {| rawMode := mode_after field actions (rawMode h);
             key := key h + length (resets actions) |}) <$> (fields pg !! field) ∧
  formState (run reset actions pg) = formState (run (form_reset base) actions pg) ∧
  ∀ pg0 : Page FormState, formState pg0 = formState pg →
    outcomes reset actions pg = outcomes (form_reset base) actions pg0 ∧
    formState (run reset actions pg) = formState (run (form_reset base) actions pg0).
Proof.
  intros reset. revert pg. induction actions as [|a actions IH]; intros pg.
  - simpl. splits; [|done|by intros pg0 ->].
    destruct (fields pg !! field) as [[m k]|]; [|done]. simpl. by rewrite Nat.add_0_r.
  - assert (∀ pg0 : Page FormState, formState pg0 = formState pg →
              formState (act reset a pg) = formState (act (form_reset base) a pg0)) as A.
    { intros pg0 E. destruct a as [f b|v]; simpl; [done|].
      unfold reset, wrap_reset, form_reset. simpl. rewrite E.
      by destruct (base v (formState pg)). }
    destruct (IH (act reset a pg)) as (F & S & G).
    assert (∀ pg0 : Page FormState, formState pg0 = formState pg →
              outcomes reset (a :: actions) pg
              = outcomes (form_reset base) (a :: actions) pg0 ∧
              formState (run reset (a :: actions) pg)
              = formState (run (form_reset base) (a :: actions) pg0)) as G'.
    { intros pg0 E. destruct (G (act (form_reset base) a pg0) (eq_sym (A pg0 E))) as [G1 G2].
      split; [|exact G2]. simpl. rewrite G1. f_equal.
      destruct a as [f b|v]; [done|]. unfold reset, wrap_reset, form_reset. simpl.
      rewrite E. by destruct (base v (formState pg)). }
    splits; [|by apply G'|exact G'].
    change (run reset (a :: actions) pg) with (run reset actions (act reset a pg)).
    rewrite F. destruct a as [f b|v]; simpl.
    + destruct (decide (f = field)) as [->|N].
      * rewrite lookup_alter_eq. by destruct (fields pg !! field).
      * by rewrite lookup_alter_ne.
    + unfold reset, wrap_reset, form_reset. simpl.
      destruct (base v (formState pg)) as [o s]. simpl.
      rewrite lookup_alter_eq. destruct (fields pg !! field) as [[m k]|]; [|done].
      simpl. do 2 f_equal. lia.
Qed.

(** X12: whatever the sequence of mode switches and form resets, the field
    is in the mode of the last switch addressed to it (in rich mode if
    there was none since it mounted), its key is the number of resets
    since it mounted, so that a reset, and only a reset, remounts the
    editor; the resets return, and leave the form, as the form's own reset
    would.  The component shows the raw editor exactly in raw mode and keys
    its provider with the key. *)
Theorem field_follows_switches_and_resets {Templates Props : Type}
  field (actions : list (Action Values)) (form : FormState) (t : Templates) (p : Props) :
  let reset := wrap_reset field (form_reset base) in
  let pg := {| fields := {[field := mounted]}; formState := form |} in
  let h := {| rawMode := mode_after field actions false;
              key := length (resets actions) |} in
  fields (run reset actions pg) !! field = Some h ∧
  formState (run reset actions pg) = formState (run (form_reset base) actions pg) ∧
  outcomes reset actions pg = outcomes (form_reset base) actions pg ∧
  shows_raw (Component t p h) = mode_after field actions false ∧
  provider_key (Component t p h) = Some (length (resets actions)).
Proof.
  intros reset pg h. destruct (run_field field actions pg) as (F & S & G).
  fold reset in F, S, G. splits.
  - rewrite F. unfold pg. simpl. by rewrite lookup_singleton_eq.
  - exact S.
  - by apply G.
  - unfold Component, shows_raw, h. simpl. by destruct (mode_after field actions false).
  - done.
Qed.

End Plugin.

(** The theorem at a form with the fields [body] and [summary] mounted,
    whose own reset stores the initial values. *)
Lemma reset_remounts_every_field_witness :
  NoDup ["body"; "summary"] ∧
  key <$> (fields (mount_all ["body"; "summary"]
                     (form_reset (λ (v : string) (_ : string), ((), v))) "draft"
                     {| fields := {["body" := mounted; "summary" := bumped 2 mounted]};
                        formState := "edited" |}).2 !! "summary")
  = Some 3.
Proof.
  assert (NoDup ["body"; "summary"]) as D
    by (apply (bool_decide_unpack (NoDup ["body"; "summary"])); exact I).
  split; [exact D|].
  destruct (reset_remounts_every_field (λ (v : string) (_ : string), ((), v))
              ["body"; "summary"] "draft"
              {| fields := {["body" := mounted; "summary" := bumped 2 mounted]};
                 formState := "edited" |} D) as (_ & _ & K & _).
  rewrite (K "summary"). reflexivity.
Defined.

End MdxFieldFacts.
